(** * go-pbkdf: PBKDF2 password hashing with a self-describing encoding

    A shallow embedding of [pbkdf.go] (package [pbkdf]) together with the
    parts of the Go standard library and of [golang.org/x/crypto/pbkdf2]
    that the package calls, followed by the properties of [Hash],
    [Params.Hash], [GenerateSalt] and [Verify].

    Conventions.
    - A Go [int] is a [Z]; the platform is 64-bit ([intSize = 64]) and every
      place where Go arithmetic can wrap writes the wrap-around out.
    - A Go [string] is a [string] (a sequence of 8-bit characters) and a
      [[]byte] is a [list byte].
    - A Go function returning [(T, error)] returns a [result T]: either
      [Ret v err] (the pair, [err = None] for [nil]), or [Panic] (a run-time
      panic unwinding through the caller), or [Crash] (the runtime ends the
      process with a fatal error that no caller can recover from).
    - [make] panics when the size asked for is negative or above the
      allocator's limit [maxAlloc].  Whether a large request that passes
      this check is granted depends on the memory of the machine, which is
      not modelled: the model grants it, and the properties of the package
      that state a return state it for sizes of at most [2 ^ 20] bytes. *)

From Stdlib Require Import ZArith List String Ascii Bool Lia.
From Stdlib Require Import Init.Byte Strings.Byte Btauto.
From coqutil Require Import Z.bitblast.
Import ListNotations.
Local Open Scope string_scope.
Local Open Scope list_scope.
Local Open Scope Z_scope.

(* ================================================================= *)
(** * Part I: the embedding *)

(** ** Go basics *)

Definition intSize : Z := 64.
Definition MaxInt : Z := 2 ^ (intSize - 1) - 1.
Definition MinInt : Z := - 2 ^ (intSize - 1).

(** The values a Go [int] can hold. *)
Definition is_int (z : Z) : bool := (MinInt <=? z) && (z <=? MaxInt).

(** Two's complement wrap-around of [int] arithmetic. *)
Definition wrap (z : Z) : Z := (z + 2 ^ (intSize - 1)) mod 2 ^ intSize - 2 ^ (intSize - 1).

(** [byte(x)]: conversion of an integer to a byte keeps the low 8 bits. *)
Definition byte_of_Z (z : Z) : byte :=
  match Byte.of_N (Z.to_N (z mod 256)) with
  | Some b => b
  | None => x00
  end.

Definition Z_of_byte (b : byte) : Z := Z.of_N (Byte.to_N b).

(** The run-time's [maxAlloc], the largest size [makeslice] accepts:
    [1 << 48] bytes on the 64-bit platforms. *)
Definition maxAlloc : Z := 2 ^ 48.

(** [len(s)] of a slice, as an [int]. *)
Definition len {A : Type} (l : list A) : Z := Z.of_nat (List.length l).

(** An [error] value: [errors.New] allocates an [errorString]. *)
Inductive error : Type :=
| errorString (msg : string).

Inductive result (A : Type) : Type :=
| Ret (v : A) (err : option error)
| Panic
| Crash.
Arguments Ret {A} v err.
Arguments Panic {A}.
Arguments Crash {A}.

(** Every character of [s] satisfies [P]. *)
Fixpoint allChars (P : ascii -> bool) (s : string) : bool :=
  match s with
  | EmptyString => true
  | String a s' => P a && allChars P s'
  end.

(** The character [c] does not occur in [s]. *)
Definition absent (c : ascii) (s : string) : bool :=
  allChars (fun a => negb (Ascii.eqb a c)) s.

Module errors.

Definition New (text : string) : error := errorString text.

End errors.

(** ** package strings *)

Module strings.

(** [explode]: the pieces of [Split(s, "")], one per byte (Go cuts after
    each UTF-8 sequence; the two agree on ASCII text). *)
Fixpoint explode (s : string) : list string :=
  match s with
  | EmptyString => []
  | String c s' => String c EmptyString :: explode s'
  end.

(** [genSplit] for a non-empty separator: cut at the leftmost occurrence of
    [sep], continue behind it.  [skip] counts the characters of a matched
    separator that are still to be dropped. *)
Fixpoint genSplit (sep : string) (skip : nat) (s : string) : list string :=
  match s with
  | EmptyString => [EmptyString]
  | String c s' =>
      match skip with
      | S k => genSplit sep k s'
      | O =>
          if String.prefix sep s
          then EmptyString :: genSplit sep (String.length sep - 1) s'
          else match genSplit sep 0 s' with
               | h :: t => String c h :: t
               | [] => [String c EmptyString]
               end
      end
  end.

Definition Split (s sep : string) : list string :=
  if String.eqb sep EmptyString then explode s else genSplit sep 0 s.

End strings.

(** ** package strconv *)

Module strconv.

(** [ch -= '0'; if ch > 9 { syntax error }] *)
Definition digit (ch : ascii) : option Z :=
  let n := Z.of_N (N_of_ascii ch) in
  if (48 <=? n) && (n <=? 57) then Some (n - 48) else None.

Definition isDigit (ch : ascii) : bool :=
  match digit ch with
  | Some _ => true
  | None => false
  end.

(** The digit loop [n = n*10 + int(ch)], failing on the first character
    that is no decimal digit. *)
Fixpoint digits (s : string) (n : Z) : option Z :=
  match s with
  | EmptyString => Some n
  | String ch s' =>
      match digit ch with
      | Some d => digits s' (n * 10 + d)
      | None => None
      end
  end.

(** [Atoi]: an optional sign, at least one decimal digit, nothing else, and
    a value that fits an [int]; [None] stands for any [*NumError] (syntax
    or range). *)
Definition Atoi (s : string) : option Z :=
  match s with
  | EmptyString => None
  | String c rest =>
      let neg := Ascii.eqb c "-" in
      let body := if neg || Ascii.eqb c "+" then rest else s in
      match body with
      | EmptyString => None
      | _ =>
          match digits body 0 with
          | None => None
          | Some n =>
              let v := if neg then - n else n in
              if is_int v then Some v else None
          end
      end
  end.

End strconv.

(** ** package fmt *)

Module fmt.

(** [byte('0' + u - next*10)] *)
Definition digit_char (d : Z) : ascii := ascii_of_N (Z.to_N (48 + d)).

(** [fmtInteger]'s loop: the decimal digits of [u], least significant
    first, written in front of [acc]. *)
Fixpoint fmtDigits (fuel : nat) (u : Z) (acc : string) : string :=
  match fuel with
  | O => acc
  | S fuel' =>
      let next := u / 10 in
      let acc' := String (digit_char (u - next * 10)) acc in
      if u <? 10 then acc' else fmtDigits fuel' next acc'
  end.

(** The verb [%d] applied to an [int]: a minus sign for a negative number,
    then the digits of its magnitude (a number has no more decimal digits
    than binary ones). *)
Definition fmt_d (n : Z) : string :=
  let u := Z.abs n in
  let ds := fmtDigits (S (Z.to_nat (Z.log2 u))) u EmptyString in
  if n <? 0 then String "-" ds else ds.

End fmt.

(** ** package encoding/base64 *)

Module base64.

(** The standard alphabet (RFC 4648). *)
Definition encodeStd : string :=
  "ABCDEFGHIJKLMNOPQRSTUVWXYZabcdefghijklmnopqrstuvwxyz0123456789+/".

(** [enc.encode[i]] *)
Definition encode (i : Z) : ascii :=
  match String.get (Z.to_nat i) encodeStd with
  | Some c => c
  | None => Ascii.zero
  end.

Fixpoint indexOf (alphabet : string) (c : ascii) (i : Z) : Z :=
  match alphabet with
  | EmptyString => 255
  | String a rest => if Ascii.eqb a c then i else indexOf rest c (i + 1)
  end.

(** [enc.decodeMap[c]]: the position of [c] in the alphabet, [0xff] for a
    character outside it. *)
Definition decodeMap (c : ascii) : Z := indexOf encodeStd c 0.

(** [RawStdEncoding.EncodeToString]: three bytes give four characters; a
    rest of one or two bytes gives two or three, and no padding follows. *)
Fixpoint EncodeToString (src : list byte) : string :=
  match src with
  | [] => EmptyString
  | [b0] =>
      let val := Z.shiftl (Z_of_byte b0) 16 in
      String (encode (Z.land (Z.shiftr val 18) 63))
        (String (encode (Z.land (Z.shiftr val 12) 63)) EmptyString)
  | [b0; b1] =>
      let val := Z.lor (Z.shiftl (Z_of_byte b0) 16) (Z.shiftl (Z_of_byte b1) 8) in
      String (encode (Z.land (Z.shiftr val 18) 63))
        (String (encode (Z.land (Z.shiftr val 12) 63))
           (String (encode (Z.land (Z.shiftr val 6) 63)) EmptyString))
  | b0 :: b1 :: b2 :: rest =>
      let val := Z.lor (Z.lor (Z.shiftl (Z_of_byte b0) 16) (Z.shiftl (Z_of_byte b1) 8))
                   (Z_of_byte b2) in
      String (encode (Z.land (Z.shiftr val 18) 63))
        (String (encode (Z.land (Z.shiftr val 12) 63))
           (String (encode (Z.land (Z.shiftr val 6) 63))
              (String (encode (Z.land val 63)) (EncodeToString rest))))
  end.

(** The decoder skips carriage returns and line feeds wherever they stand. *)
Fixpoint stripNewlines (s : string) : string :=
  match s with
  | EmptyString => EmptyString
  | String c s' =>
      if Ascii.eqb c "010" || Ascii.eqb c "013" then stripNewlines s'
      else String c (stripNewlines s')
  end.

(** The 24-bit value of a quantum, missing characters counting as zero. *)
Definition quantum (d0 d1 d2 d3 : Z) : Z :=
  Z.lor (Z.lor (Z.lor (Z.shiftl d0 18) (Z.shiftl d1 12)) (Z.shiftl d2 6)) d3.

Definition valid (d : Z) : bool := negb (d =? 255).

(** [decodeQuantum], quantum after quantum, with no padding character and
    not in strict mode: a character outside the alphabet is corrupt input,
    and so is a last quantum of a single character; the unused low bits of
    a short last quantum are dropped unchecked. *)
Fixpoint decodeQuanta (s : string) : option (list byte) :=
  match s with
  | EmptyString => Some []
  | String c0 EmptyString => None
  | String c0 (String c1 EmptyString) =>
      let d0 := decodeMap c0 in
      let d1 := decodeMap c1 in
      if valid d0 && valid d1
      then Some [byte_of_Z (Z.shiftr (quantum d0 d1 0 0) 16)]
      else None
  | String c0 (String c1 (String c2 EmptyString)) =>
      let d0 := decodeMap c0 in
      let d1 := decodeMap c1 in
      let d2 := decodeMap c2 in
      if valid d0 && valid d1 && valid d2
      then let val := quantum d0 d1 d2 0 in
           Some [byte_of_Z (Z.shiftr val 16); byte_of_Z (Z.shiftr val 8)]
      else None
  | String c0 (String c1 (String c2 (String c3 rest))) =>
      let d0 := decodeMap c0 in
      let d1 := decodeMap c1 in
      let d2 := decodeMap c2 in
      let d3 := decodeMap c3 in
      if valid d0 && valid d1 && valid d2 && valid d3
      then let val := quantum d0 d1 d2 d3 in
           match decodeQuanta rest with
           | Some bs =>
               Some (byte_of_Z (Z.shiftr val 16) :: byte_of_Z (Z.shiftr val 8)
                       :: byte_of_Z val :: bs)
           | None => None
           end
      else None
  end.

(** [RawStdEncoding.DecodeString]; [None] stands for a [CorruptInputError]. *)
Definition DecodeString (s : string) : option (list byte) :=
  decodeQuanta (stripNewlines s).

(** The strings over the alphabet. *)
Definition inAlphabet (s : string) : bool := allChars (fun c => valid (decodeMap c)) s.

End base64.

(** ** package crypto/subtle *)

Module subtle.

(** What an observer of the running time and of the memory bus learns: the
    outcome of every conditional jump and the index of every slice access. *)
Inductive leak : Type :=
| Branch (taken : bool)
| Index (i : Z).

(** [ConstantTimeByteEq]: [int((uint32(x^y) - 1) >> 31)] *)
Definition ConstantTimeByteEq (x y : Z) : Z :=
  Z.shiftr ((Z.lxor x y - 1) mod 2 ^ 32) 31.

(** The loop [for i := 0; i < len(x); i++ { v |= x[i] ^ y[i] }], entered with
    slices of one length; it returns [v] and what the loop leaks. *)
Fixpoint compareLoop (x y : list byte) (i : Z) (v : Z) : Z * list leak :=
  match x, y with
  | a :: x', b :: y' =>
      let (v', t) := compareLoop x' y' (i + 1) (Z.lor v (Z.lxor (Z_of_byte a) (Z_of_byte b))) in
      (v', Branch true :: Index i :: Index i :: t)
  | _, _ => (v, [Branch false])
  end.

(** [ConstantTimeCompare] with its leakage. *)
Definition ConstantTimeCompare_leak (x y : list byte) : Z * list leak :=
  if negb (len x =? len y) then (0, [Branch true])
  else let (v, t) := compareLoop x y 0 0 in
       (ConstantTimeByteEq v 0, Branch false :: t).

Definition ConstantTimeCompare (x y : list byte) : Z :=
  fst (ConstantTimeCompare_leak x y).

End subtle.

(** ** package hash *)

Module hash.

(** The interface [hash.Hash], read functionally: [Sum] is the digest of
    the bytes written since the last [Reset]. *)
Record Hash : Type := {
  Sum : list byte -> list byte;
  Size : Z;
  BlockSize : Z
}.

End hash.

(** ** package crypto/sha256 (FIPS 180-4) *)

Module sha256.

(** The round constants: the first 32 bits of the fractional parts of the
    cube roots of the first 64 primes. *)
Definition _K : list Z :=
  [1116352408; 1899447441; 3049323471; 3921009573; 961987163; 1508970993;
   2453635748; 2870763221; 3624381080; 310598401; 607225278; 1426881987;
   1925078388; 2162078206; 2614888103; 3248222580; 3835390401; 4022224774;
   264347078; 604807628; 770255983; 1249150122; 1555081692; 1996064986;
   2554220882; 2821834349; 2952996808; 3210313671; 3336571891; 3584528711;
   113926993; 338241895; 666307205; 773529912; 1294757372; 1396182291;
   1695183700; 1986661051; 2177026350; 2456956037; 2730485921; 2820302411;
   3259730800; 3345764771; 3516065817; 3600352804; 4094571909; 275423344;
   430227734; 506948616; 659060556; 883997877; 958139571; 1322822218;
   1537002063; 1747873779; 1955562222; 2024104815; 2227730452; 2361852424;
   2428436474; 2756734187; 3204031479; 3329325298].

Definition state : Type := (Z * Z * Z * Z * Z * Z * Z * Z)%type.

(** The initial hash value: the same of the square roots of the first 8
    primes. *)
Definition init : state :=
  (1779033703, 3144134277, 1013904242, 2773480762, 1359893119, 2600822924, 528734635, 1541459225).

Definition add32 (a b : Z) : Z := (a + b) mod 2 ^ 32.

(** [bits.RotateLeft32(x, -n)] *)
Definition rotr (x n : Z) : Z :=
  Z.lor (Z.shiftr x n) (Z.shiftl x (32 - n) mod 2 ^ 32).

(** The message schedule, newest word first: [w[i] = t1 + w[i-7] + t2 + w[i-16]]. *)
Fixpoint schedule (n : nat) (w : list Z) : list Z :=
  match n with
  | O => w
  | S n' =>
      let v1 := nth 1 w 0 in
      let t1 := Z.lxor (Z.lxor (rotr v1 17) (rotr v1 19)) (Z.shiftr v1 10) in
      let v2 := nth 14 w 0 in
      let t2 := Z.lxor (Z.lxor (rotr v2 7) (rotr v2 18)) (Z.shiftr v2 3) in
      schedule n' (add32 (add32 (add32 t1 (nth 6 w 0)) t2) (nth 15 w 0) :: w)
  end.

Definition round (s : state) (kw : Z * Z) : state :=
  let '(a, b, c, d, e, f, g, h) := s in
  let t1 := add32 (add32 (add32 (add32 h
              (Z.lxor (Z.lxor (rotr e 6) (rotr e 11)) (rotr e 25)))
              (Z.lxor (Z.land e f) (Z.land (Z.lxor e (2 ^ 32 - 1)) g)))
              (fst kw)) (snd kw) in
  let t2 := add32 (Z.lxor (Z.lxor (rotr a 2) (rotr a 13)) (rotr a 22))
              (Z.lxor (Z.lxor (Z.land a b) (Z.land a c)) (Z.land b c)) in
  (add32 t1 t2, a, b, c, add32 d t1, e, f, g).

(** Big-endian 32-bit words of a chunk. *)
Fixpoint words (p : list byte) : list Z :=
  match p with
  | b0 :: b1 :: b2 :: b3 :: p' =>
      Z.lor (Z.lor (Z.lor (Z.shiftl (Z_of_byte b0) 24) (Z.shiftl (Z_of_byte b1) 16))
               (Z.shiftl (Z_of_byte b2) 8)) (Z_of_byte b3) :: words p'
  | _ => []
  end.

(** [blockGeneric] on one 64-byte chunk. *)
Definition block (s : state) (chunk : list byte) : state :=
  let w := rev (schedule 48 (rev (words chunk))) in
  let '(h0, h1, h2, h3, h4, h5, h6, h7) := s in
  let '(a, b, c, d, e, f, g, h) := fold_left round (combine _K w) s in
  (add32 h0 a, add32 h1 b, add32 h2 c, add32 h3 d,
   add32 h4 e, add32 h5 f, add32 h6 g, add32 h7 h).

Fixpoint blocks (n : nat) (s : state) (p : list byte) : state :=
  match n with
  | O => s
  | S n' => blocks n' (block s (firstn 64 p)) (skipn 64 p)
  end.

(** Big-endian bytes of a word of [n] bytes. *)
Fixpoint bigEndian (n : nat) (v : Z) : list byte :=
  match n with
  | O => []
  | S n' => byte_of_Z (Z.shiftr v (8 * Z.of_nat n')) :: bigEndian n' v
  end.

(** Padding: a one bit, zeros up to 56 modulo 64, the length in bits. *)
Definition padding (msgLen : Z) : list byte :=
  x80 :: repeat x00 (Z.to_nat ((55 - msgLen) mod 64)) ++ bigEndian 8 (msgLen * 8 mod 2 ^ 64).

Definition Sum256 (data : list byte) : list byte :=
  let p := data ++ padding (len data) in
  let '(h0, h1, h2, h3, h4, h5, h6, h7) := blocks (List.length p / 64) init p in
  bigEndian 4 h0 ++ bigEndian 4 h1 ++ bigEndian 4 h2 ++ bigEndian 4 h3 ++
  bigEndian 4 h4 ++ bigEndian 4 h5 ++ bigEndian 4 h6 ++ bigEndian 4 h7.

(** [sha256.New] *)
Definition New : hash.Hash :=
  {| hash.Sum := Sum256; hash.Size := 32; hash.BlockSize := 64 |}.

End sha256.

(** ** package crypto/hmac *)

Module hmac.

Definition xorBytes (c : Z) (bs : list byte) : list byte :=
  map (fun b => byte_of_Z (Z.lxor (Z_of_byte b) c)) bs.

(** [copy(pad, key)] into [make([]byte, blocksize)]. *)
Definition padKey (blocksize : Z) (key : list byte) : list byte :=
  let n := Z.to_nat blocksize in
  firstn n key ++ repeat x00 (n - List.length key).

(** [hmac.New(h, key)] followed by [Write(msg)] and [Sum(nil)]: a key longer
    than a block is hashed first, then
    [H(key ^ opad || H(key ^ ipad || msg))]. *)
Definition Sum (h : hash.Hash) (key msg : list byte) : list byte :=
  let blocksize := hash.BlockSize h in
  let key := if blocksize <? len key then hash.Sum h key else key in
  let ipad := xorBytes 0x36 (padKey blocksize key) in
  let opad := xorBytes 0x5c (padKey blocksize key) in
  hash.Sum h (opad ++ hash.Sum h (ipad ++ msg)).

End hmac.

(** ** package golang.org/x/crypto/pbkdf2 (RFC 8018) *)

Module pbkdf2.

(** [for x := range U { T[x] ^= U[x] }] *)
Fixpoint xorInto (T U : list byte) : list byte :=
  match T, U with
  | t :: T', u :: U' => byte_of_Z (Z.lxor (Z_of_byte t) (Z_of_byte u)) :: xorInto T' U'
  | _, _ => T
  end.

(** One pass of the inner loop: [U_n = PRF(password, U_(n-1))], [T ^= U_n]. *)
Definition step (h : hash.Hash) (password : list byte) (UT : list byte * list byte)
  : list byte * list byte :=
  let U := hmac.Sum h password (fst UT) in
  (U, xorInto (snd UT) U).

(** The block [T_i = U_1 ^ U_2 ^ ... ^ U_iter], where
    [U_1 = PRF(password, salt || uint(i))]; the inner loop
    [for n := 2; n <= iter; n++] runs [iter - 1] times, and not at all when
    [iter < 2].  (At [iter = MaxInt] the counter [n] of the Go loop wraps
    around and the loop does not end, while the model lets it end; the
    properties of the package that state a return state it for iteration
    counts below [MaxInt].) *)
Definition T (h : hash.Hash) (password salt : list byte) (iter block : Z) : list byte :=
  let buf := [byte_of_Z (Z.shiftr block 24); byte_of_Z (Z.shiftr block 16);
              byte_of_Z (Z.shiftr block 8); byte_of_Z block] in
  let U1 := hmac.Sum h password (salt ++ buf) in
  snd (Z.iter (iter - 1) (step h password) (U1, U1)).

(** [pbkdf2.Key], for a hash whose [Sum] appends [Size] bytes.  It panics
    when [h] is nil (called by [hmac.New]), when [hashLen] is zero (integer
    division), when the capacity given to [make] is negative or above
    [maxAlloc], and when [dk[:keyLen]] is out of range; [None] is a panic. *)
Definition Key (password salt : list byte) (iter keyLen : Z) (h : option hash.Hash)
  : option (list byte) :=
  match h with
  | None => None
  | Some h =>
      let hashLen := hash.Size h in
      if hashLen =? 0 then None else
      let numBlocks := Z.quot (wrap (keyLen + hashLen - 1)) hashLen in
      let cap := wrap (numBlocks * hashLen) in
      if (cap <? 0) || (maxAlloc <? cap) then None else
      let dk := flat_map (fun block => T h password salt iter (Z.of_nat block))
                  (seq 1 (Z.to_nat numBlocks)) in
      if (keyLen <? 0) || (cap <? keyLen) then None
      else Some (firstn (Z.to_nat keyLen) dk)
  end.

End pbkdf2.

(** ** package crypto/rand *)

Module rand.

(** The system's random source: the bytes it will deliver, how many of
    them were consumed, and the code of the system's error when it is out
    of order. *)
Record Reader : Type := {
  entropy : nat -> byte;
  consumed : nat;
  failure : option Z
}.

(** [rand.Read(b)] (Go 1.24 and later) fills [b] entirely and never
    returns an error: when the source fails it crashes the program
    irrecoverably.  The result carries the filled slice and the [error],
    which is always [nil]. *)
Definition Read (b : list byte) (r : Reader) : result (list byte) * Reader :=
  match failure r with
  | Some _ => (Crash, r)
  | None =>
      let n := List.length b in
      (Ret (map (entropy r) (seq (consumed r) n)) None,
       {| entropy := entropy r; consumed := (consumed r + n)%nat; failure := None |})
  end.

End rand.

(** ** package pbkdf *)

Module pbkdf.

(** [Params] configures the PBKDF2 hashing; a nil [HashFunc] is [None]. *)
Record Params : Type := {
  Iterations : Z;
  KeyLen : Z;
  SaltLen : Z;
  HashFunc : option hash.Hash
}.

Definition DefaultParams : Params :=
  {| Iterations := 120000;
     KeyLen := 32;
     SaltLen := 16;
     HashFunc := Some sha256.New |}.

(** [GenerateSalt] generates a random salt of the specified length. *)
Definition GenerateSalt (length : Z) (r : rand.Reader) : result (list byte) * rand.Reader :=
  if length <=? 0 then (Ret [] (Some (errors.New "salt length must be positive")), r)
  else if maxAlloc <? length then (Panic, r)
  else
    let salt := repeat x00 (Z.to_nat length) in
    match rand.Read salt r with
    | (Ret _ (Some err), r') => (Ret [] (Some err), r')
    | (Ret salt None, r') => (Ret salt None, r')
    | (Panic, r') => (Panic, r')
    | (Crash, r') => (Crash, r')
    end.

(** The first lines of [Params.Hash]: apply defaults for zero values. *)
Definition applyDefaults (p : Params) : Params :=
  {| Iterations := if Iterations p =? 0 then Iterations DefaultParams else Iterations p;
     KeyLen := if KeyLen p =? 0 then KeyLen DefaultParams else KeyLen p;
     SaltLen := if SaltLen p =? 0 then SaltLen DefaultParams else SaltLen p;
     HashFunc := match HashFunc p with
                 | None => HashFunc DefaultParams
                 | Some h => Some h
                 end |}.

(** [fmt.Sprintf("$pbkdf2-sha256$i=%d,l=%d$%s$%s", ...)] *)
Definition format (iterations keyLen : Z) (b64Salt b64Hash : string) : string :=
  String.append "$pbkdf2-sha256$i="
    (String.append (fmt.fmt_d iterations)
       (String.append ",l="
          (String.append (fmt.fmt_d keyLen)
             (String.append "$" (String.append b64Salt (String.append "$" b64Hash)))))).

(** Field 2 of an encoded hash as [Params.Hash] writes it. *)
Definition field2 (iterations keyLen : Z) : string :=
  String.append "i=" (String.append (fmt.fmt_d iterations)
                        (String.append ",l=" (fmt.fmt_d keyLen))).

(** [Params.Hash] hashes a password using the configured parameters. *)
Definition Params_Hash (p : Params) (password : list byte) (r : rand.Reader)
  : result string * rand.Reader :=
  let p := applyDefaults p in
  match GenerateSalt (SaltLen p) r with
  | (Panic, r') => (Panic, r')
  | (Crash, r') => (Crash, r')
  | (Ret _ (Some err), r') => (Ret EmptyString (Some err), r')
  | (Ret salt None, r') =>
      match pbkdf2.Key password salt (Iterations p) (KeyLen p) (HashFunc p) with
      | None => (Panic, r')
      | Some dk =>
          let b64Salt := base64.EncodeToString salt in
          let b64Hash := base64.EncodeToString dk in
          (Ret (format (Iterations p) (KeyLen p) b64Salt b64Hash) None, r')
      end
  end.

(** [Hash] hashes a password using PBKDF2 with the default parameters. *)
Definition Hash (password : list byte) (r : rand.Reader) : result string * rand.Reader :=
  Params_Hash DefaultParams password r.

Definition invalidHash : error := errors.New "invalid or corrupted hash".

(** The loop of [Verify] over the entries of field 2; [None] is the early
    [return false, errors.New(...)] out of the loop. *)
Fixpoint parseParams (params : list string) (iterations keyLen : Z) : option (Z * Z) :=
  match params with
  | [] => Some (iterations, keyLen)
  | param :: params' =>
      let kv := strings.Split param "=" in
      if negb (len kv =? 2) then parseParams params' iterations keyLen
      else if String.eqb (nth 0 kv EmptyString) "i" then
        match strconv.Atoi (nth 1 kv EmptyString) with
        | Some n => parseParams params' n keyLen
        | None => None
        end
      else if String.eqb (nth 0 kv EmptyString) "l" then
        match strconv.Atoi (nth 1 kv EmptyString) with
        | Some n => parseParams params' iterations n
        | None => None
        end
      else parseParams params' iterations keyLen
  end.

(** What [Verify] reads off an encoded hash before it derives a key: five
    fields, the algorithm tag, nonzero [i] and [l] from field 2, and the
    salt and the stored key decoded; [None] when one of these checks
    fails.  This is the sense of a well-formed encoded hash below. *)
Definition parse (encodedHash : string) : option (Z * Z * list byte * list byte) :=
  match strings.Split encodedHash "$" with
  | [_; tag; field2; b64Salt; b64Hash] =>
      if String.eqb tag "pbkdf2-sha256" then
        match parseParams (strings.Split field2 ",") 0 0 with
        | Some (iterations, keyLen) =>
            if (iterations =? 0) || (keyLen =? 0) then None
            else match base64.DecodeString b64Salt, base64.DecodeString b64Hash with
                 | Some salt, Some decodedHash => Some (iterations, keyLen, salt, decodedHash)
                 | _, _ => None
                 end
        | None => None
        end
      else None
  | _ => None
  end.

(** [Verify] checks if a password matches the encoded hash.  The function
    is given with the leakage of its comparison step: beside what it
    returns, [Verify_leak] tells what the call of
    [subtle.ConstantTimeCompare] on the derived and the stored key leaks
    (nothing when the call is not reached). *)
Definition Verify_leak (password : list byte) (encodedHash : string)
  : result bool * list subtle.leak :=
  let parts := strings.Split encodedHash "$" in
  if negb (len parts =? 5)
  then (Ret false (Some (errors.New "invalid or corrupted hash")), [])
  else if negb (String.eqb (nth 1 parts EmptyString) "pbkdf2-sha256")
  then (Ret false (Some (errors.New "invalid or corrupted hash")), [])
  else
    match parseParams (strings.Split (nth 2 parts EmptyString) ",") 0 0 with
    | None => (Ret false (Some (errors.New "invalid or corrupted hash")), [])
    | Some (iterations, keyLen) =>
        if (iterations =? 0) || (keyLen =? 0)
        then (Ret false (Some (errors.New "invalid or corrupted hash")), [])
        else
          match base64.DecodeString (nth 3 parts EmptyString) with
          | None => (Ret false (Some (errors.New "invalid or corrupted hash")), [])
          | Some salt =>
              match base64.DecodeString (nth 4 parts EmptyString) with
              | None => (Ret false (Some (errors.New "invalid or corrupted hash")), [])
              | Some decodedHash =>
                  match pbkdf2.Key password salt iterations keyLen (Some sha256.New) with
                  | None => (Panic, [])
                  | Some dk =>
                      let (equal, leaked) := subtle.ConstantTimeCompare_leak dk decodedHash in
                      if equal =? 1
                      then (Ret true None, leaked)
                      else (Ret false None, leaked)
                  end
              end
          end
    end.

(** What [Verify] returns. *)
Definition Verify (password : list byte) (encodedHash : string) : result bool :=
  fst (Verify_leak password encodedHash).

End pbkdf.

(** ** Fixtures for worked examples *)

(** A random source in working order and one that is out of order. *)
Definition workingReader : rand.Reader :=
  {| rand.entropy := fun n => byte_of_Z (Z.of_nat n * 7 + 3);
     rand.consumed := 0;
     rand.failure := None |}.

Definition brokenReader : rand.Reader :=
  {| rand.entropy := fun _ => x00; rand.consumed := 0; rand.failure := Some 5 |}.

(** A password, a parameter set with one iteration, and the encoded hash
    [Params.Hash] writes for them with [workingReader]. *)
Definition examplePassword : list byte := list_byte_of_string "pw".

Definition exampleParams : pbkdf.Params :=
  {| pbkdf.Iterations := 1; pbkdf.KeyLen := 0; pbkdf.SaltLen := 0; pbkdf.HashFunc := None |}.

Definition exampleHash : string :=
  "$pbkdf2-sha256$i=1,l=32$AwoRGB8mLTQ7QklQV15lbA$cQdzqrcwUax9FtrE8Oqh8LY5+kZHyCzi/t39YJAAAlE".

(** The salt and the derived key that [exampleHash] carries. *)
Definition exampleSalt : list byte :=
  map byte_of_Z [3; 10; 17; 24; 31; 38; 45; 52; 59; 66; 73; 80; 87; 94; 101; 108].

Definition exampleKey : list byte :=
  map byte_of_Z [113; 7; 115; 170; 183; 48; 81; 172; 125; 22; 218; 196; 240; 234; 161; 240;
                 182; 57; 250; 70; 71; 200; 44; 226; 254; 221; 253; 96; 144; 0; 2; 81].

(** [exampleHash] with entries in field 2 that are no [i=...] or [l=...]
    pairs: a bare word, a pair with two [=], an empty entry. *)
Definition junkHash : string :=
  "$pbkdf2-sha256$junk,i=1,x=y=z,l=32,$AwoRGB8mLTQ7QklQV15lbA$cQdzqrcwUax9FtrE8Oqh8LY5+kZHyCzi/t39YJAAAlE".

(** An encoded hash for an empty salt, a one-byte key and a stored key
    that is not the derived one. *)
Definition tinyHash : string := "$pbkdf2-sha256$i=1,l=1$$AA".

(** [exampleHash] with the largest key length an [int] can name. *)
Definition overlongHash : string :=
  "$pbkdf2-sha256$i=1,l=9223372036854775807$AwoRGB8mLTQ7QklQV15lbA$cQdzqrcwUax9FtrE8Oqh8LY5+kZHyCzi/t39YJAAAlE".

(** The all-zero parameter set, [Params{}]. *)
Definition zeroParams : pbkdf.Params :=
  {| pbkdf.Iterations := 0; pbkdf.KeyLen := 0; pbkdf.SaltLen := 0; pbkdf.HashFunc := None |}.

(** ** Proof automation *)

(** Equality of two integers, bit by bit. *)
Ltac bits :=
  Z.bitblast; repeat (progress Z.bitblast_core);
  rewrite ?Z.testbit_neg_r by lia; try btauto.

(* ================================================================= *)
(** * Part II: properties *)

(** ** Bytes and strings *)

Lemma Z_of_byte_range (b : byte) : 0 <= Z_of_byte b < 256.
Proof.
  unfold Z_of_byte. pose proof (Byte.to_N_bounded b). lia.
Qed.

Lemma byte_of_Z_of_byte (b : byte) : byte_of_Z (Z_of_byte b) = b.
Proof.
  unfold byte_of_Z. pose proof (Z_of_byte_range b) as Hb.
  rewrite Z.mod_small by exact Hb. unfold Z_of_byte.
  rewrite N2Z.id, Byte.of_to_N. reflexivity.
Qed.

Lemma Z_of_byte_of_Z (z : Z) : Z_of_byte (byte_of_Z z) = z mod 256.
Proof.
  unfold byte_of_Z, Z_of_byte.
  pose proof (Z.mod_pos_bound z 256 ltac:(lia)) as Hz.
  destruct (Byte.of_N (Z.to_N (z mod 256))) as [b|] eqn:E.
  - apply Byte.to_of_N in E. rewrite E. lia.
  - apply Byte.of_N_None_iff in E. lia.
Qed.

Lemma Z_of_byte_inj (a b : byte) : Z_of_byte a = Z_of_byte b -> a = b.
Proof.
  intros H. rewrite <- (byte_of_Z_of_byte a), <- (byte_of_Z_of_byte b), H. reflexivity.
Qed.

Lemma allChars_app (P : ascii -> bool) (a b : string) :
  allChars P (String.append a b) = allChars P a && allChars P b.
Proof.
  induction a as [|c a IH]; simpl; [reflexivity|].
  rewrite IH, andb_assoc. reflexivity.
Qed.

Lemma allChars_impl (P Q : ascii -> bool) (s : string) :
  (forall c, P c = true -> Q c = true) -> allChars P s = true -> allChars Q s = true.
Proof.
  intros HPQ. induction s as [|c s IH]; simpl; [reflexivity|].
  intros H. apply andb_true_iff in H as [Hc Hs].
  rewrite (HPQ c Hc), (IH Hs). reflexivity.
Qed.

Lemma absent_app (c : ascii) (a b : string) :
  absent c (String.append a b) = absent c a && absent c b.
Proof. apply allChars_app. Qed.

(** ** strings.Split with a one-character separator *)

Lemma genSplit_step (c a : ascii) (s : string) :
  strings.genSplit (String c EmptyString) 0 (String a s) =
  if Ascii.eqb a c then EmptyString :: strings.genSplit (String c EmptyString) 0 s
  else match strings.genSplit (String c EmptyString) 0 s with
       | h :: t => String a h :: t
       | [] => [String a EmptyString]
       end.
Proof.
  simpl. destruct (ascii_dec c a) as [->|Hne].
  - rewrite Ascii.eqb_refl. destruct s; reflexivity.
  - destruct (Ascii.eqb a c) eqn:E; [|reflexivity].
    apply Ascii.eqb_eq in E. congruence.
Qed.

Lemma genSplit_not_nil (sep : string) (k : nat) (s : string) :
  strings.genSplit sep k s <> [].
Proof.
  revert k. induction s as [|a s IH]; intros k; cbn [strings.genSplit]; [discriminate|].
  destruct k; [|apply IH].
  destruct (String.prefix sep (String a s)); [discriminate|].
  destruct (strings.genSplit sep 0 s); discriminate.
Qed.

Lemma Split_char (s : string) (c : ascii) :
  strings.Split s (String c EmptyString) = strings.genSplit (String c EmptyString) 0 s.
Proof. reflexivity. Qed.

Lemma Split_absent (c : ascii) (s : string) :
  absent c s = true -> strings.Split s (String c EmptyString) = [s].
Proof.
  rewrite Split_char. induction s as [|a s IH]; [reflexivity|].
  intros H. unfold absent in H; simpl in H. apply andb_true_iff in H as [Ha Hs].
  rewrite genSplit_step. apply negb_true_iff in Ha. rewrite Ha.
  rewrite (IH Hs). reflexivity.
Qed.

Lemma Split_app (c : ascii) (a b : string) :
  absent c a = true ->
  strings.Split (String.append a (String c b)) (String c EmptyString) =
  a :: strings.Split b (String c EmptyString).
Proof.
  rewrite !Split_char. induction a as [|x a IH]; intros H.
  - simpl String.append. rewrite genSplit_step, Ascii.eqb_refl. reflexivity.
  - unfold absent in H; simpl in H. apply andb_true_iff in H as [Hx Ha].
    simpl String.append. rewrite genSplit_step. apply negb_true_iff in Hx.
    rewrite Hx, (IH Ha). reflexivity.
Qed.

Lemma Split_pieces (c : ascii) (s : string) :
  Forall (fun p => absent c p = true) (strings.Split s (String c EmptyString)).
Proof.
  rewrite Split_char. induction s as [|a s IH].
  - repeat constructor.
  - rewrite genSplit_step. destruct (Ascii.eqb a c) eqn:E.
    + constructor; [reflexivity|exact IH].
    + destruct (strings.genSplit (String c EmptyString) 0 s) as [|h t].
      * repeat constructor. unfold absent; simpl. rewrite E. reflexivity.
      * inversion IH; subst. constructor; [|assumption].
        unfold absent; simpl. rewrite E. assumption.
Qed.

Lemma Split_join (c : ascii) (s : string) :
  String.concat (String c EmptyString) (strings.Split s (String c EmptyString)) = s.
Proof.
  rewrite Split_char. induction s as [|a s IH]; [reflexivity|].
  rewrite genSplit_step. destruct (Ascii.eqb a c) eqn:E.
  - apply Ascii.eqb_eq in E. subst a.
    pose proof (genSplit_not_nil (String c EmptyString) 0 s) as Hne.
    destruct (strings.genSplit (String c EmptyString) 0 s) as [|h t]; [congruence|].
    change (String.concat (String c EmptyString) (EmptyString :: h :: t))
      with (String c (String.concat (String c EmptyString) (h :: t))).
    rewrite IH. reflexivity.
  - destruct (strings.genSplit (String c EmptyString) 0 s) as [|h t] eqn:G.
    + exfalso. exact (genSplit_not_nil _ _ _ G).
    + destruct t as [|h' t]; simpl in *; rewrite IH; reflexivity.
Qed.

(** ** fmt's [%d] and strconv.Atoi *)

Lemma digit_digit_char (d : Z) :
  0 <= d < 10 -> strconv.digit (fmt.digit_char d) = Some d.
Proof.
  intros H.
  assert (d = 0 \/ d = 1 \/ d = 2 \/ d = 3 \/ d = 4 \/ d = 5 \/ d = 6 \/ d = 7 \/ d = 8 \/ d = 9)
    as Hd by lia.
  repeat (destruct Hd as [-> | Hd]; [reflexivity|]). subst d. reflexivity.
Qed.

Lemma digits_app (a b : string) (n : Z) :
  strconv.digits (String.append a b) n =
  match strconv.digits a n with
  | Some m => strconv.digits b m
  | None => None
  end.
Proof.
  revert n. induction a as [|c a IH]; intros n; simpl; [reflexivity|].
  destruct (strconv.digit c); [apply IH|reflexivity].
Qed.

Lemma append_assoc (a b c : string) :
  String.append (String.append a b) c = String.append a (String.append b c).
Proof.
  induction a as [|x a IH]; simpl; [reflexivity|]. rewrite IH. reflexivity.
Qed.

Lemma append_nil_r (a : string) : String.append a EmptyString = a.
Proof.
  induction a as [|x a IH]; simpl; [reflexivity|]. rewrite IH. reflexivity.
Qed.

(** The digit loop of [%d] writes a non-empty run of digits in front of
    [acc], and the digit loop of [Atoi] reads the number back from it. *)
Lemma fmtDigits_spec (fuel : nat) :
  forall (u : Z) (acc : string),
    0 <= u < 10 ^ Z.of_nat fuel ->
    fuel <> O ->
    exists ds : string,
      fmt.fmtDigits fuel u acc = String.append ds acc /\
      ds <> EmptyString /\
      allChars strconv.isDigit ds = true /\
      forall n : Z, strconv.digits ds n = Some (n * 10 ^ Z.of_nat (String.length ds) + u).
Proof.
  induction fuel as [|fuel IH]; intros u acc Hu Hfuel; [congruence|].
  cbn [fmt.fmtDigits]. cbv zeta.
  assert (Hd : 0 <= u - u / 10 * 10 < 10).
  { pose proof (Z.div_mod u 10 ltac:(lia)). pose proof (Z.mod_pos_bound u 10 ltac:(lia)). lia. }
  pose proof (digit_digit_char _ Hd) as Hdc.
  destruct (u <? 10) eqn:Hlt.
  - apply Z.ltb_lt in Hlt.
    exists (String (fmt.digit_char (u - u / 10 * 10)) EmptyString).
    repeat split.
    + discriminate.
    + simpl. unfold strconv.isDigit. rewrite Hdc. reflexivity.
    + intros n. simpl. rewrite Hdc. f_equal.
      rewrite Z.div_small by lia. lia.
  - apply Z.ltb_ge in Hlt.
    assert (Hnext : 0 <= u / 10 < 10 ^ Z.of_nat fuel).
    { split; [apply Z.div_pos; lia|].
      apply Z.div_lt_upper_bound; [lia|].
      replace (Z.of_nat (S fuel)) with (Z.succ (Z.of_nat fuel)) in Hu by lia.
      rewrite Z.pow_succ_r in Hu by lia. lia. }
    assert (Hf : fuel <> O).
    { intros ->. simpl in Hnext.
      assert (1 <= u / 10) by (apply Z.div_le_lower_bound; lia). lia. }
    destruct (IH (u / 10) (String (fmt.digit_char (u - u / 10 * 10)) acc) Hnext Hf)
      as (ds & Heq & Hne & Hall & Hval).
    exists (String.append ds (String (fmt.digit_char (u - u / 10 * 10)) EmptyString)).
    repeat split.
    + rewrite Heq, append_assoc. reflexivity.
    + destruct ds; [congruence|discriminate].
    + rewrite allChars_app, Hall. simpl. unfold strconv.isDigit. rewrite Hdc. reflexivity.
    + intros n. rewrite digits_app, Hval. simpl. rewrite Hdc. f_equal.
      assert (Hlen : String.length (String.append ds (String (fmt.digit_char (u - u / 10 * 10)) EmptyString))
                     = S (String.length ds)).
      { clear. induction ds; simpl; congruence. }
      rewrite Hlen.
      replace (Z.of_nat (S (String.length ds))) with (Z.succ (Z.of_nat (String.length ds))) by lia.
      rewrite Z.pow_succ_r by lia. lia.
Qed.

Lemma fmt_fuel (u : Z) : 0 <= u -> u < 10 ^ Z.of_nat (S (Z.to_nat (Z.log2 u))).
Proof.
  intros Hu.
  replace (Z.of_nat (S (Z.to_nat (Z.log2 u)))) with (Z.succ (Z.log2 u))
    by (pose proof (Z.log2_nonneg u); lia).
  destruct (Z.eq_dec u 0) as [->|Hnz]; [reflexivity|].
  pose proof (Z.log2_spec u ltac:(lia)) as [_ Hlt].
  eapply Z.lt_le_trans; [exact Hlt|].
  apply Z.pow_le_mono_l. pose proof (Z.log2_nonneg u). lia.
Qed.

(** What [%d] prints of a magnitude. *)
Lemma fmt_magnitude (u : Z) :
  0 <= u ->
  exists ds : string,
    fmt.fmtDigits (S (Z.to_nat (Z.log2 u))) u EmptyString = ds /\
    ds <> EmptyString /\
    allChars strconv.isDigit ds = true /\
    strconv.digits ds 0 = Some u.
Proof.
  intros Hu.
  destruct (fmtDigits_spec (S (Z.to_nat (Z.log2 u))) u EmptyString) as (ds & Heq & Hne & Hall & Hval).
  - split; [exact Hu|apply fmt_fuel; exact Hu].
  - discriminate.
  - exists ds. rewrite Heq, append_nil_r. repeat split; try assumption.
    rewrite Hval. reflexivity.
Qed.

Lemma isDigit_not_sign (c : ascii) :
  strconv.isDigit c = true -> Ascii.eqb c "-" = false /\ Ascii.eqb c "+" = false.
Proof.
  intros H. split.
  - destruct (Ascii.eqb c "-") eqn:E; [|reflexivity].
    apply Ascii.eqb_eq in E. subst c. discriminate H.
  - destruct (Ascii.eqb c "+") eqn:E; [|reflexivity].
    apply Ascii.eqb_eq in E. subst c. discriminate H.
Qed.

(** [Atoi] reads back what [%d] printed, for every [int]. *)
Lemma Atoi_fmt_d (n : Z) : is_int n = true -> strconv.Atoi (fmt.fmt_d n) = Some n.
Proof.
  intros Hint. unfold fmt.fmt_d. cbv zeta.
  destruct (fmt_magnitude (Z.abs n) (Z.abs_nonneg n)) as (ds & -> & Hne & Hall & Hval).
  destruct (n <? 0) eqn:Hneg.
  - apply Z.ltb_lt in Hneg. unfold strconv.Atoi. cbv zeta.
    rewrite Ascii.eqb_refl. cbn [orb].
    destruct ds as [|c ds]; [congruence|].
    rewrite Hval. replace (- Z.abs n) with n by lia. rewrite Hint. reflexivity.
  - apply Z.ltb_ge in Hneg. destruct ds as [|c ds]; [congruence|].
    unfold strconv.Atoi. cbv zeta.
    assert (Hc : strconv.isDigit c = true).
    { simpl in Hall. apply andb_true_iff in Hall. tauto. }
    destruct (isDigit_not_sign c Hc) as [-> ->]. cbn [orb].
    rewrite Hval. replace (Z.abs n) with n by lia. rewrite Hint. reflexivity.
Qed.

(** [%d] prints digits, behind a minus sign at most. *)
Lemma fmt_d_chars (n : Z) :
  allChars (fun c => strconv.isDigit c || Ascii.eqb c "-") (fmt.fmt_d n) = true.
Proof.
  unfold fmt.fmt_d. cbv zeta.
  destruct (fmt_magnitude (Z.abs n) (Z.abs_nonneg n)) as (ds & -> & Hne & Hall & Hval).
  assert (Hds : allChars (fun c => strconv.isDigit c || Ascii.eqb c "-") ds = true).
  { eapply allChars_impl; [|exact Hall]. intros c ->. reflexivity. }
  destruct (n <? 0); [simpl; exact Hds|exact Hds].
Qed.

Lemma fmt_d_absent (c : ascii) (n : Z) :
  strconv.isDigit c = false -> Ascii.eqb c "-" = false -> absent c (fmt.fmt_d n) = true.
Proof.
  intros Hd Hm. eapply allChars_impl; [|apply fmt_d_chars].
  intros a Ha. destruct (Ascii.eqb a c) eqn:E; [|reflexivity].
  apply Ascii.eqb_eq in E. subst a. rewrite Hd, Hm in Ha. discriminate.
Qed.

(** ** Bit-level facts *)

Lemma byte_of_Z_eq (z : Z) (b : byte) :
  z mod 2 ^ 8 = Z_of_byte b -> byte_of_Z z = b.
Proof.
  intros H. rewrite <- (byte_of_Z_of_byte b), <- H.
  unfold byte_of_Z. change 256 with (2 ^ 8). rewrite Z.mod_mod by lia. reflexivity.
Qed.

Lemma Z_of_byte_mod (b : byte) : Z_of_byte b = Z_of_byte b mod 2 ^ 8.
Proof.
  symmetry. apply Z.mod_small. change (2 ^ 8) with 256. apply Z_of_byte_range.
Qed.

Lemma land_63 (a : Z) : Z.land a 63 = a mod 2 ^ 6.
Proof. change 63 with (Z.ones 6). apply Z.land_ones. lia. Qed.

Lemma sextet_range (a : Z) : 0 <= Z.land a 63 < 64.
Proof. rewrite land_63. apply Z.mod_pos_bound. lia. Qed.

(** The four sextets of a 24-bit value make up the value again. *)
Lemma quantum_sextets (v : Z) :
  base64.quantum (Z.shiftr (v mod 2 ^ 24) 18 mod 2 ^ 6) (Z.shiftr (v mod 2 ^ 24) 12 mod 2 ^ 6)
    (Z.shiftr (v mod 2 ^ 24) 6 mod 2 ^ 6) ((v mod 2 ^ 24) mod 2 ^ 6) = v mod 2 ^ 24.
Proof.
  unfold base64.quantum. bits.
Qed.

Lemma val_three (x0 x1 x2 : Z) :
  let val := Z.lor (Z.lor (Z.shiftl (x0 mod 2 ^ 8) 16) (Z.shiftl (x1 mod 2 ^ 8) 8)) (x2 mod 2 ^ 8) in
  val mod 2 ^ 24 = val /\
  Z.shiftr val 16 mod 2 ^ 8 = x0 mod 2 ^ 8 /\
  Z.shiftr val 8 mod 2 ^ 8 = x1 mod 2 ^ 8 /\
  val mod 2 ^ 8 = x2 mod 2 ^ 8.
Proof.
  cbv zeta. repeat split; bits.
Qed.

Lemma val_two (x0 x1 : Z) :
  let val := Z.lor (Z.shiftl (x0 mod 2 ^ 8) 16) (Z.shiftl (x1 mod 2 ^ 8) 8) in
  val mod 2 ^ 24 = val /\
  val mod 2 ^ 6 = 0 /\
  Z.shiftr val 16 mod 2 ^ 8 = x0 mod 2 ^ 8 /\
  Z.shiftr val 8 mod 2 ^ 8 = x1 mod 2 ^ 8.
Proof.
  cbv zeta. repeat split; bits.
Qed.

Lemma val_one (x0 : Z) :
  let val := Z.shiftl (x0 mod 2 ^ 8) 16 in
  val mod 2 ^ 24 = val /\
  val mod 2 ^ 6 = 0 /\
  Z.shiftr val 6 mod 2 ^ 6 = 0 /\
  Z.shiftr val 16 mod 2 ^ 8 = x0 mod 2 ^ 8.
Proof.
  cbv zeta. repeat split; bits.
Qed.

Lemma quantum_of_sextets (v : Z) :
  v mod 2 ^ 24 = v ->
  base64.quantum (Z.land (Z.shiftr v 18) 63) (Z.land (Z.shiftr v 12) 63)
    (Z.land (Z.shiftr v 6) 63) (Z.land v 63) = v.
Proof.
  intros H. rewrite !land_63. pose proof (quantum_sextets v) as Q.
  rewrite H in Q. exact Q.
Qed.

(** ** base64: decoding inverts encoding *)

Lemma decode_encode (i : Z) :
  0 <= i < 64 -> base64.decodeMap (base64.encode i) = i.
Proof.
  intros H.
  assert (exists n : nat, (n < 64)%nat /\ i = Z.of_nat n) as (n & Hn & ->)
    by (exists (Z.to_nat i); lia).
  do 64 (destruct n as [|n]; [reflexivity|]). lia.
Qed.

Lemma valid_sextet (a : Z) : base64.valid (base64.decodeMap (base64.encode (Z.land a 63))) = true.
Proof.
  pose proof (sextet_range a) as H. rewrite decode_encode by exact H.
  unfold base64.valid. destruct (Z.eqb_spec (Z.land a 63) 255); [lia|reflexivity].
Qed.

Lemma decode_three (b0 b1 b2 : byte) :
  let val := Z.lor (Z.lor (Z.shiftl (Z_of_byte b0) 16) (Z.shiftl (Z_of_byte b1) 8))
               (Z_of_byte b2) in
  let q := base64.quantum (Z.land (Z.shiftr val 18) 63) (Z.land (Z.shiftr val 12) 63)
             (Z.land (Z.shiftr val 6) 63) (Z.land val 63) in
  byte_of_Z (Z.shiftr q 16) = b0 /\ byte_of_Z (Z.shiftr q 8) = b1 /\ byte_of_Z q = b2.
Proof.
  cbv zeta.
  pose proof (val_three (Z_of_byte b0) (Z_of_byte b1) (Z_of_byte b2)) as H. cbv zeta in H.
  rewrite <- !Z_of_byte_mod in H. destruct H as (Hv & H0 & H1 & H2).
  rewrite (quantum_of_sextets _ Hv).
  repeat split; apply byte_of_Z_eq; assumption.
Qed.

Lemma decode_two (b0 b1 : byte) :
  let val := Z.lor (Z.shiftl (Z_of_byte b0) 16) (Z.shiftl (Z_of_byte b1) 8) in
  let q := base64.quantum (Z.land (Z.shiftr val 18) 63) (Z.land (Z.shiftr val 12) 63)
             (Z.land (Z.shiftr val 6) 63) 0 in
  byte_of_Z (Z.shiftr q 16) = b0 /\ byte_of_Z (Z.shiftr q 8) = b1.
Proof.
  cbv zeta.
  pose proof (val_two (Z_of_byte b0) (Z_of_byte b1)) as H. cbv zeta in H.
  rewrite <- !Z_of_byte_mod in H. destruct H as (Hv & Hlow & H0 & H1).
  pose proof (quantum_of_sextets _ Hv) as Q.
  rewrite (land_63 (Z.lor _ _)), Hlow in Q. rewrite Q.
  split; apply byte_of_Z_eq; assumption.
Qed.

Lemma decode_one (b0 : byte) :
  let val := Z.shiftl (Z_of_byte b0) 16 in
  let q := base64.quantum (Z.land (Z.shiftr val 18) 63) (Z.land (Z.shiftr val 12) 63) 0 0 in
  byte_of_Z (Z.shiftr q 16) = b0.
Proof.
  cbv zeta.
  pose proof (val_one (Z_of_byte b0)) as H. cbv zeta in H.
  rewrite <- !Z_of_byte_mod in H. destruct H as (Hv & Hlow & Hmid & H0).
  pose proof (quantum_of_sextets _ Hv) as Q.
  rewrite (land_63 (Z.shiftl _ _)), Hlow in Q.
  rewrite (land_63 (Z.shiftr _ 6)), Hmid in Q. rewrite Q.
  apply byte_of_Z_eq; assumption.
Qed.

(** Induction on a slice three bytes at a time, as the encoder walks it. *)
Lemma list_ind3 (A : Type) (P : list A -> Prop) :
  P [] ->
  (forall a, P [a]) ->
  (forall a b, P [a; b]) ->
  (forall a b c l, P l -> P (a :: b :: c :: l)) ->
  forall l, P l.
Proof.
  intros H0 H1 H2 H3 l.
  assert (H : P l /\ (forall a, P (a :: l)) /\ (forall a b, P (a :: b :: l))).
  { induction l as [|x l (IH0 & IH1 & IH2)].
    - auto.
    - repeat split; auto. }
  apply H.
Qed.

(** The encoder writes characters of the alphabet only. *)
Lemma EncodeToString_inAlphabet (src : list byte) :
  base64.inAlphabet (base64.EncodeToString src) = true.
Proof.
  unfold base64.inAlphabet.
  induction src as [|b0|b0 b1|b0 b1 b2 rest IH] using list_ind3;
    cbn [base64.EncodeToString allChars]; cbv zeta;
    rewrite ?valid_sextet, ?IH; reflexivity.
Qed.

Lemma inAlphabet_absent (c : ascii) (s : string) :
  base64.decodeMap c = 255 -> base64.inAlphabet s = true -> absent c s = true.
Proof.
  intros Hc. apply allChars_impl. intros a Ha.
  destruct (Ascii.eqb a c) eqn:E; [|reflexivity].
  apply Ascii.eqb_eq in E. subst a. rewrite Hc in Ha. discriminate.
Qed.

Lemma inAlphabet_stripNewlines (s : string) :
  base64.inAlphabet s = true -> base64.stripNewlines s = s.
Proof.
  unfold base64.inAlphabet. induction s as [|a s IH]; [reflexivity|].
  cbn [allChars base64.stripNewlines]. intros H. apply andb_true_iff in H as [Ha Hs].
  assert (Hn : Ascii.eqb a "010" = false).
  { destruct (Ascii.eqb a "010") eqn:E; [|reflexivity].
    apply Ascii.eqb_eq in E. subst a. discriminate. }
  assert (Hr : Ascii.eqb a "013" = false).
  { destruct (Ascii.eqb a "013") eqn:E; [|reflexivity].
    apply Ascii.eqb_eq in E. subst a. discriminate. }
  rewrite Hn, Hr, (IH Hs). reflexivity.
Qed.

Lemma decodeQuanta_EncodeToString (src : list byte) :
  base64.decodeQuanta (base64.EncodeToString src) = Some src.
Proof.
  induction src as [|b0|b0 b1|b0 b1 b2 rest IH] using list_ind3;
    cbn [base64.EncodeToString base64.decodeQuanta]; cbv zeta.
  - reflexivity.
  - rewrite !valid_sextet, !decode_encode by apply sextet_range. cbn [andb].
    pose proof (decode_one b0) as H. cbv zeta in H. rewrite H. reflexivity.
  - rewrite !valid_sextet, !decode_encode by apply sextet_range. cbn [andb].
    pose proof (decode_two b0 b1) as [H0 H1]. rewrite H0, H1. reflexivity.
  - rewrite !valid_sextet, !decode_encode by apply sextet_range. cbn [andb].
    rewrite IH.
    pose proof (decode_three b0 b1 b2) as (H0 & H1 & H2). rewrite H0, H1, H2. reflexivity.
Qed.

(** [DecodeString(EncodeToString(src)) = src] *)
Lemma DecodeString_EncodeToString (src : list byte) :
  base64.DecodeString (base64.EncodeToString src) = Some src.
Proof.
  unfold base64.DecodeString.
  rewrite inAlphabet_stripNewlines by apply EncodeToString_inAlphabet.
  apply decodeQuanta_EncodeToString.
Qed.

(** ** subtle.ConstantTimeCompare *)

Lemma compareLoop_cons (a b : byte) (x y : list byte) (i v : Z) :
  subtle.compareLoop (a :: x) (b :: y) i v =
  let r := subtle.compareLoop x y (i + 1) (Z.lor v (Z.lxor (Z_of_byte a) (Z_of_byte b))) in
  (fst r, subtle.Branch true :: subtle.Index i :: subtle.Index i :: snd r).
Proof.
  cbn [subtle.compareLoop]. cbv zeta.
  destruct (subtle.compareLoop x y (i + 1) _); reflexivity.
Qed.

Lemma byte_lor_lxor (v a b : Z) :
  Z.lor (v mod 2 ^ 8) (Z.lxor (a mod 2 ^ 8) (b mod 2 ^ 8)) mod 2 ^ 8 =
  Z.lor (v mod 2 ^ 8) (Z.lxor (a mod 2 ^ 8) (b mod 2 ^ 8)).
Proof. bits. Qed.

Lemma compareLoop_range (x : list byte) :
  forall (y : list byte) (i v : Z),
    0 <= v < 256 -> 0 <= fst (subtle.compareLoop x y i v) < 256.
Proof.
  induction x as [|a x IH]; intros y i v Hv; [exact Hv|].
  destruct y as [|b y]; [exact Hv|].
  rewrite compareLoop_cons. cbn [fst]. apply IH.
  pose proof (byte_lor_lxor v (Z_of_byte a) (Z_of_byte b)) as H.
  rewrite <- !Z_of_byte_mod in H. rewrite (Z.mod_small v) in H by exact Hv.
  rewrite <- H. apply Z.mod_pos_bound. lia.
Qed.

Lemma compareLoop_zero (x : list byte) :
  forall (y : list byte) (i v : Z),
    List.length x = List.length y ->
    (fst (subtle.compareLoop x y i v) = 0 <-> v = 0 /\ x = y).
Proof.
  induction x as [|a x IH]; intros y i v Hlen; destruct y as [|b y]; try discriminate.
  - simpl. tauto.
  - rewrite compareLoop_cons. cbn [fst].
    injection Hlen as Hlen. rewrite (IH y _ _ Hlen).
    rewrite Z.lor_eq_0_iff, Z.lxor_eq_0_iff. split.
    + intros ((Hv & Hab) & Hxy). apply Z_of_byte_inj in Hab. subst. auto.
    + intros (Hv & Heq). injection Heq as -> ->. auto.
Qed.

Lemma compareLoop_leak (x : list byte) :
  forall (y x' y' : list byte) (i v v' : Z),
    List.length x = List.length x' ->
    List.length y = List.length y' ->
    snd (subtle.compareLoop x y i v) = snd (subtle.compareLoop x' y' i v').
Proof.
  induction x as [|a x IH]; intros y x' y' i v v' Hx Hy;
    destruct x' as [|a' x']; try discriminate; [reflexivity|].
  destruct y as [|b y], y' as [|b' y']; try discriminate; [reflexivity|].
  rewrite !compareLoop_cons. cbn [snd].
  injection Hx as Hx. injection Hy as Hy.
  rewrite (IH y x' y' _ _ (Z.lor v' (Z.lxor (Z_of_byte a') (Z_of_byte b'))) Hx Hy).
  reflexivity.
Qed.

Lemma compareLoop_rounds (x : list byte) :
  forall (y : list byte) (i v : Z),
    List.length x = List.length y ->
    List.length (snd (subtle.compareLoop x y i v)) = (3 * List.length x + 1)%nat.
Proof.
  induction x as [|a x IH]; intros y i v Hlen; destruct y as [|b y]; try discriminate.
  - reflexivity.
  - rewrite compareLoop_cons. cbn [snd]. injection Hlen as Hlen.
    cbn [List.length]. rewrite (IH y _ _ Hlen). lia.
Qed.

Lemma ConstantTimeByteEq_zero (v : Z) :
  0 <= v < 256 ->
  subtle.ConstantTimeByteEq v 0 = if v =? 0 then 1 else 0.
Proof.
  intros Hv. unfold subtle.ConstantTimeByteEq. rewrite Z.lxor_0_r.
  destruct (Z.eqb_spec v 0) as [->|Hnz]; [reflexivity|].
  rewrite Z.mod_small by lia. rewrite Z.shiftr_div_pow2 by lia.
  apply Z.div_small. lia.
Qed.

Lemma len_eq (A : Type) (x y : list A) : len x = len y <-> List.length x = List.length y.
Proof. unfold len. lia. Qed.

(** [ConstantTimeCompare] returns 1 if the two slices have equal contents
    and 0 otherwise. *)
Lemma ConstantTimeCompare_spec (x y : list byte) :
  (x = y -> subtle.ConstantTimeCompare x y = 1) /\
  (x <> y -> subtle.ConstantTimeCompare x y = 0).
Proof.
  unfold subtle.ConstantTimeCompare, subtle.ConstantTimeCompare_leak.
  destruct (Z.eqb_spec (len x) (len y)) as [Hlen|Hlen]; cbn [negb].
  - apply len_eq in Hlen.
    destruct (subtle.compareLoop x y 0 0) as [v t] eqn:Hloop. cbn [fst].
    replace v with (fst (subtle.compareLoop x y 0 0)) by (rewrite Hloop; reflexivity).
    rewrite ConstantTimeByteEq_zero by (apply compareLoop_range; lia).
    pose proof (compareLoop_zero x y 0 0 Hlen) as Hz.
    destruct (Z.eqb_spec (fst (subtle.compareLoop x y 0 0)) 0) as [E|E]; split; intros H.
    + reflexivity.
    + exfalso. apply H. apply Hz. exact E.
    + exfalso. apply E. apply Hz. auto.
    + reflexivity.
  - split; intros H; [subst; congruence|reflexivity].
Qed.

Lemma ConstantTimeCompare_eqb (x y : list byte) :
  (subtle.ConstantTimeCompare x y =? 1) = true <-> x = y.
Proof.
  destruct (ConstantTimeCompare_spec x y) as [Heq Hne].
  destruct (list_eq_dec Byte.byte_eq_dec x y) as [E|E].
  - rewrite (Heq E). tauto.
  - rewrite (Hne E). split; [discriminate|tauto].
Qed.

(** What [ConstantTimeCompare] leaks depends on the two lengths only. *)
Lemma ConstantTimeCompare_leak_lengths (x y x' y' : list byte) :
  len x = len x' -> len y = len y' ->
  snd (subtle.ConstantTimeCompare_leak x y) = snd (subtle.ConstantTimeCompare_leak x' y').
Proof.
  intros Hx Hy. unfold subtle.ConstantTimeCompare_leak. rewrite <- Hx, <- Hy.
  destruct (Z.eqb_spec (len x) (len y)) as [E|E]; cbn [negb]; [|reflexivity].
  apply len_eq in Hx, Hy.
  pose proof (compareLoop_leak x y x' y' 0 0 0 Hx Hy) as Hleak.
  destruct (subtle.compareLoop x y 0 0), (subtle.compareLoop x' y' 0 0).
  cbn [snd] in *. rewrite Hleak. reflexivity.
Qed.

(** With equal lengths the loop visits every byte. *)
Lemma ConstantTimeCompare_leak_rounds (x y : list byte) :
  len x = len y ->
  List.length (snd (subtle.ConstantTimeCompare_leak x y)) = (3 * List.length x + 2)%nat.
Proof.
  intros E. unfold subtle.ConstantTimeCompare_leak. rewrite E, Z.eqb_refl. cbn [negb].
  apply len_eq in E. pose proof (compareLoop_rounds x y 0 0 E) as Hr.
  destruct (subtle.compareLoop x y 0 0). cbn [snd List.length] in *. lia.
Qed.

(** With different lengths the length check is all that happens. *)
Lemma ConstantTimeCompare_leak_mismatch (x y : list byte) :
  len x <> len y ->
  List.length (snd (subtle.ConstantTimeCompare_leak x y)) = 1%nat.
Proof.
  intros E. unfold subtle.ConstantTimeCompare_leak.
  destruct (Z.eqb_spec (len x) (len y)) as [E'|_]; [contradiction|]. reflexivity.
Qed.

(** ** pbkdf2.Key *)

Lemma is_int_range (z : Z) :
  is_int z = true <-> - 9223372036854775808 <= z <= 9223372036854775807.
Proof.
  unfold is_int, MinInt, MaxInt, intSize.
  change (2 ^ (64 - 1)) with 9223372036854775808.
  rewrite andb_true_iff, !Z.leb_le. lia.
Qed.

Lemma wrap_small (z : Z) : is_int z = true -> wrap z = z.
Proof.
  intros H. apply is_int_range in H. unfold wrap, intSize.
  change (2 ^ (64 - 1)) with 9223372036854775808.
  change (2 ^ 64) with 18446744073709551616.
  rewrite Z.mod_small by lia. lia.
Qed.

(** [pbkdf2.Key] returns a key for every key length from 0 up to the
    largest one whose blocks fit the allocator's limit. *)
Lemma Key_returns (password salt : list byte) (iter keyLen : Z) (h : hash.Hash) :
  0 < hash.Size h ->
  0 <= keyLen ->
  keyLen + hash.Size h - 1 <= maxAlloc ->
  exists dk : list byte, pbkdf2.Key password salt iter keyLen (Some h) = Some dk.
Proof.
  intros Hsize Hlen Hmax. unfold pbkdf2.Key. cbv zeta.
  assert (HA : maxAlloc = 281474976710656) by reflexivity.
  destruct (Z.eqb_spec (hash.Size h) 0) as [E|_]; [lia|].
  rewrite (wrap_small (keyLen + hash.Size h - 1)) by (apply is_int_range; lia).
  rewrite Z.quot_div_nonneg by lia.
  set (n := (keyLen + hash.Size h - 1) / hash.Size h).
  assert (Hn : keyLen <= n * hash.Size h <= keyLen + hash.Size h - 1).
  { pose proof (Z.div_mod (keyLen + hash.Size h - 1) (hash.Size h) ltac:(lia)) as Hdm.
    pose proof (Z.mod_pos_bound (keyLen + hash.Size h - 1) (hash.Size h) Hsize) as Hm.
    fold n in Hdm. nia. }
  rewrite (wrap_small (n * hash.Size h)) by (apply is_int_range; lia).
  destruct (Z.ltb_spec (n * hash.Size h) 0) as [E|_]; [lia|].
  destruct (Z.ltb_spec maxAlloc (n * hash.Size h)) as [E|_]; [lia|].
  destruct (Z.ltb_spec keyLen 0) as [E|_]; [lia|].
  destruct (Z.ltb_spec (n * hash.Size h) keyLen) as [E|_]; [lia|].
  cbn [orb]. eexists. reflexivity.
Qed.

(** A negative key length makes [pbkdf2.Key] panic, whatever the hash. *)
Lemma Key_negative (password salt : list byte) (iter keyLen : Z) (h : option hash.Hash) :
  keyLen < 0 -> pbkdf2.Key password salt iter keyLen h = None.
Proof.
  intros Hneg. unfold pbkdf2.Key. cbv zeta.
  destruct h as [h|]; [|reflexivity].
  destruct (hash.Size h =? 0); [reflexivity|].
  destruct ((wrap _ <? 0) || (maxAlloc <? wrap _)); [reflexivity|].
  destruct (Z.ltb_spec keyLen 0) as [_|E]; [reflexivity|lia].
Qed.

(** ** GenerateSalt *)

Lemma GenerateSalt_nonpositive (length : Z) (r : rand.Reader) :
  length <= 0 ->
  pbkdf.GenerateSalt length r =
  (Ret [] (Some (errors.New "salt length must be positive")), r).
Proof.
  intros H. unfold pbkdf.GenerateSalt.
  destruct (Z.leb_spec length 0); [reflexivity|lia].
Qed.

(** Above the allocator's limit [make([]byte, length)] panics. *)
Lemma GenerateSalt_huge (length : Z) (r : rand.Reader) :
  maxAlloc < length -> pbkdf.GenerateSalt length r = (Panic, r).
Proof.
  intros H. assert (HA : maxAlloc = 281474976710656) by reflexivity.
  unfold pbkdf.GenerateSalt.
  destruct (Z.leb_spec length 0); [lia|].
  destruct (Z.ltb_spec maxAlloc length); [reflexivity|lia].
Qed.

Lemma GenerateSalt_positive (length : Z) (r : rand.Reader) :
  0 < length <= maxAlloc ->
  pbkdf.GenerateSalt length r =
  match rand.failure r with
  | Some _ => (Crash, r)
  | None =>
      (Ret (map (rand.entropy r) (seq (rand.consumed r) (Z.to_nat length))) None,
       {| rand.entropy := rand.entropy r;
          rand.consumed := (rand.consumed r + Z.to_nat length)%nat;
          rand.failure := None |})
  end.
Proof.
  intros H. unfold pbkdf.GenerateSalt, rand.Read.
  destruct (Z.leb_spec length 0); [lia|].
  destruct (Z.ltb_spec maxAlloc length); [lia|].
  destruct (rand.failure r); [reflexivity|].
  rewrite repeat_length. reflexivity.
Qed.

(** What a returning [GenerateSalt] has done. *)
Lemma GenerateSalt_returns (length : Z) (r r' : rand.Reader) (salt : list byte) :
  pbkdf.GenerateSalt length r = (Ret salt None, r') ->
  0 < length <= maxAlloc /\ rand.failure r = None /\
  salt = map (rand.entropy r) (seq (rand.consumed r) (Z.to_nat length)) /\
  r' = {| rand.entropy := rand.entropy r;
          rand.consumed := (rand.consumed r + Z.to_nat length)%nat;
          rand.failure := None |}.
Proof.
  intros H. destruct (Z.leb_spec length 0) as [Hle|Hpos].
  { rewrite GenerateSalt_nonpositive in H by exact Hle. discriminate. }
  destruct (Z.ltb_spec maxAlloc length) as [Hbig|Hsmall].
  { rewrite GenerateSalt_huge in H by exact Hbig. discriminate. }
  rewrite GenerateSalt_positive in H by lia.
  destruct (rand.failure r); [discriminate|].
  injection H as <- <-. split; [lia|]. auto.
Qed.

(** ** The encoded hash and its parser *)

Lemma format_fields (iterations keyLen : Z) (b64Salt b64Hash : string) :
  pbkdf.format iterations keyLen b64Salt b64Hash =
  String.append EmptyString
    (String "$" (String.append "pbkdf2-sha256"
       (String "$" (String.append (pbkdf.field2 iterations keyLen)
          (String "$" (String.append b64Salt (String "$" b64Hash))))))).
Proof.
  unfold pbkdf.format, pbkdf.field2. cbn [String.append].
  rewrite !append_assoc. reflexivity.
Qed.

Lemma field2_absent (c : ascii) (iterations keyLen : Z) :
  strconv.isDigit c = false -> Ascii.eqb c "-" = false ->
  absent c "i=,l=" = true ->
  absent c (pbkdf.field2 iterations keyLen) = true.
Proof.
  intros Hd Hm Hc. unfold pbkdf.field2.
  rewrite !absent_app, !fmt_d_absent by assumption.
  unfold absent in *. cbn [allChars] in *.
  repeat (apply andb_true_iff in Hc as [?H Hc]).
  repeat (apply andb_true_iff; split); assumption.
Qed.

(** The five fields of an encoded hash written by [Params.Hash]. *)
Lemma format_Split (iterations keyLen : Z) (salt dk : list byte) :
  strings.Split
    (pbkdf.format iterations keyLen (base64.EncodeToString salt) (base64.EncodeToString dk)) "$" =
  [EmptyString; "pbkdf2-sha256"; pbkdf.field2 iterations keyLen;
   base64.EncodeToString salt; base64.EncodeToString dk].
Proof.
  rewrite format_fields.
  rewrite Split_app by reflexivity.
  rewrite Split_app by reflexivity.
  rewrite Split_app by (apply field2_absent; reflexivity).
  rewrite Split_app by (apply inAlphabet_absent; [reflexivity|apply EncodeToString_inAlphabet]).
  rewrite Split_absent by (apply inAlphabet_absent; [reflexivity|apply EncodeToString_inAlphabet]).
  reflexivity.
Qed.

Lemma field2_Split (iterations keyLen : Z) :
  strings.Split (pbkdf.field2 iterations keyLen) "," =
  [String.append "i=" (fmt.fmt_d iterations); String.append "l=" (fmt.fmt_d keyLen)].
Proof.
  unfold pbkdf.field2.
  replace (String.append "i=" (String.append (fmt.fmt_d iterations)
             (String.append ",l=" (fmt.fmt_d keyLen))))
    with (String.append (String.append "i=" (fmt.fmt_d iterations))
            (String "," (String.append "l=" (fmt.fmt_d keyLen))))
    by (rewrite append_assoc; reflexivity).
  rewrite Split_app by (rewrite absent_app, fmt_d_absent by reflexivity; reflexivity).
  rewrite Split_absent by (rewrite absent_app, fmt_d_absent by reflexivity; reflexivity).
  reflexivity.
Qed.

Lemma entry_Split (k : ascii) (n : Z) :
  Ascii.eqb k "=" = false ->
  strings.Split (String k (String "=" (fmt.fmt_d n))) "=" = [String k EmptyString; fmt.fmt_d n].
Proof.
  intros Hk.
  change (String k (String "=" (fmt.fmt_d n)))
    with (String.append (String k EmptyString) (String "=" (fmt.fmt_d n))).
  rewrite Split_app by (unfold absent; cbn [allChars]; rewrite Hk; reflexivity).
  rewrite Split_absent by (apply fmt_d_absent; reflexivity).
  reflexivity.
Qed.

Lemma parseParams_field2 (iterations keyLen i0 l0 : Z) :
  is_int iterations = true -> is_int keyLen = true ->
  pbkdf.parseParams (strings.Split (pbkdf.field2 iterations keyLen) ",") i0 l0 =
  Some (iterations, keyLen).
Proof.
  intros Hi Hl. rewrite field2_Split.
  cbn [pbkdf.parseParams String.append].
  rewrite !entry_Split by reflexivity.
  cbn [len List.length nth]. cbn.
  rewrite (Atoi_fmt_d _ Hi), (Atoi_fmt_d _ Hl). reflexivity.
Qed.

Lemma parse_format (iterations keyLen : Z) (salt dk : list byte) :
  is_int iterations = true -> is_int keyLen = true ->
  iterations <> 0 -> keyLen <> 0 ->
  pbkdf.parse
    (pbkdf.format iterations keyLen (base64.EncodeToString salt) (base64.EncodeToString dk)) =
  Some (iterations, keyLen, salt, dk).
Proof.
  intros Hi Hl Hi0 Hl0. unfold pbkdf.parse.
  rewrite format_Split. rewrite String.eqb_refl.
  rewrite (parseParams_field2 _ _ 0 0 Hi Hl).
  destruct (Z.eqb_spec iterations 0); [contradiction|].
  destruct (Z.eqb_spec keyLen 0); [contradiction|]. cbn [orb].
  rewrite !DecodeString_EncodeToString. reflexivity.
Qed.

(** [Verify] is its parser followed by the derivation and the comparison. *)
Lemma Verify_leak_parse (password : list byte) (encodedHash : string) :
  pbkdf.Verify_leak password encodedHash =
  match pbkdf.parse encodedHash with
  | None => (Ret false (Some pbkdf.invalidHash), [])
  | Some (iterations, keyLen, salt, decodedHash) =>
      match pbkdf2.Key password salt iterations keyLen (Some sha256.New) with
      | None => (Panic, [])
      | Some dk =>
          (if fst (subtle.ConstantTimeCompare_leak dk decodedHash) =? 1 then Ret true None
           else Ret false None,
           snd (subtle.ConstantTimeCompare_leak dk decodedHash))
      end
  end.
Proof.
  unfold pbkdf.Verify_leak, pbkdf.parse, pbkdf.invalidHash. cbv zeta.
  destruct (strings.Split encodedHash "$") as [|f0 [|f1 [|f2 [|f3 [|f4 [|f5 fs]]]]]];
    try reflexivity.
  - cbn [len List.length nth]. change (Z.of_nat 5 =? 5) with true. cbn [negb].
    destruct (String.eqb f1 "pbkdf2-sha256"); cbn [negb]; [|reflexivity].
    destruct (pbkdf.parseParams (strings.Split f2 ",") 0 0) as [[iterations keyLen]|];
      [|reflexivity].
    destruct ((iterations =? 0) || (keyLen =? 0)); [reflexivity|].
    destruct (base64.DecodeString f3) as [salt|]; [|reflexivity].
    destruct (base64.DecodeString f4) as [decodedHash|]; [|reflexivity].
    destruct (pbkdf2.Key password salt iterations keyLen (Some sha256.New)) as [dk|];
      [|reflexivity].
    destruct (subtle.ConstantTimeCompare_leak dk decodedHash) as [equal leaked].
    cbn [fst snd]. destruct (equal =? 1); reflexivity.
  - unfold len. cbn [List.length].
    destruct (Z.eqb_spec (Z.of_nat (S (S (S (S (S (S (List.length fs)))))))) 5) as [E|_];
      [lia|reflexivity].
Qed.

Lemma Verify_parse (password : list byte) (encodedHash : string) :
  pbkdf.Verify password encodedHash =
  match pbkdf.parse encodedHash with
  | None => Ret false (Some pbkdf.invalidHash)
  | Some (iterations, keyLen, salt, decodedHash) =>
      match pbkdf2.Key password salt iterations keyLen (Some sha256.New) with
      | None => Panic
      | Some dk =>
          if subtle.ConstantTimeCompare dk decodedHash =? 1 then Ret true None
          else Ret false None
      end
  end.
Proof.
  unfold pbkdf.Verify. rewrite Verify_leak_parse.
  destruct (pbkdf.parse encodedHash) as [[[[i l] salt] stored]|]; [|reflexivity].
  destruct (pbkdf2.Key password salt i l (Some sha256.New)); reflexivity.
Qed.

(** What a successful [Params.Hash] has done. *)
Lemma Params_Hash_returns (p : pbkdf.Params) (password : list byte) (r r' : rand.Reader)
      (s : string) :
  pbkdf.Params_Hash p password r = (Ret s None, r') ->
  exists salt dk : list byte,
    pbkdf.GenerateSalt (pbkdf.SaltLen (pbkdf.applyDefaults p)) r = (Ret salt None, r') /\
    pbkdf2.Key password salt (pbkdf.Iterations (pbkdf.applyDefaults p))
      (pbkdf.KeyLen (pbkdf.applyDefaults p)) (pbkdf.HashFunc (pbkdf.applyDefaults p)) = Some dk /\
    s = pbkdf.format (pbkdf.Iterations (pbkdf.applyDefaults p))
          (pbkdf.KeyLen (pbkdf.applyDefaults p))
          (base64.EncodeToString salt) (base64.EncodeToString dk).
Proof.
  unfold pbkdf.Params_Hash. cbv zeta.
  destruct (pbkdf.GenerateSalt (pbkdf.SaltLen (pbkdf.applyDefaults p)) r)
    as [[salt [e|]| |] r0]; try discriminate.
  destruct (pbkdf2.Key password salt _ _ _) as [dk|] eqn:HK; [|discriminate].
  intros H. injection H as <- <-. exists salt, dk. auto.
Qed.

Lemma applyDefaults_Iterations (p : pbkdf.Params) :
  pbkdf.Iterations (pbkdf.applyDefaults p) =
  if pbkdf.Iterations p =? 0 then 120000 else pbkdf.Iterations p.
Proof. reflexivity. Qed.

Lemma applyDefaults_KeyLen (p : pbkdf.Params) :
  pbkdf.KeyLen (pbkdf.applyDefaults p) = if pbkdf.KeyLen p =? 0 then 32 else pbkdf.KeyLen p.
Proof. reflexivity. Qed.

Lemma applyDefaults_SaltLen (p : pbkdf.Params) :
  pbkdf.SaltLen (pbkdf.applyDefaults p) = if pbkdf.SaltLen p =? 0 then 16 else pbkdf.SaltLen p.
Proof. reflexivity. Qed.

Lemma applyDefaults_nonzero (p : pbkdf.Params) :
  pbkdf.Iterations (pbkdf.applyDefaults p) <> 0 /\
  pbkdf.KeyLen (pbkdf.applyDefaults p) <> 0 /\
  pbkdf.SaltLen (pbkdf.applyDefaults p) <> 0 /\
  pbkdf.HashFunc (pbkdf.applyDefaults p) <> None.
Proof.
  rewrite applyDefaults_Iterations, applyDefaults_KeyLen, applyDefaults_SaltLen.
  repeat split.
  - destruct (Z.eqb_spec (pbkdf.Iterations p) 0); lia.
  - destruct (Z.eqb_spec (pbkdf.KeyLen p) 0); lia.
  - destruct (Z.eqb_spec (pbkdf.SaltLen p) 0); lia.
  - cbn. destruct (pbkdf.HashFunc p); discriminate.
Qed.

Lemma applyDefaults_is_int (p : pbkdf.Params) :
  is_int (pbkdf.Iterations p) = true -> is_int (pbkdf.KeyLen p) = true ->
  is_int (pbkdf.Iterations (pbkdf.applyDefaults p)) = true /\
  is_int (pbkdf.KeyLen (pbkdf.applyDefaults p)) = true.
Proof.
  intros Hi Hl. rewrite applyDefaults_Iterations, applyDefaults_KeyLen.
  destruct (pbkdf.Iterations p =? 0), (pbkdf.KeyLen p =? 0); auto.
Qed.

Lemma EncodeToString_length (src : list byte) :
  String.length (base64.EncodeToString src) = ((4 * List.length src + 2) / 3)%nat.
Proof.
  induction src as [|b0|b0 b1|b0 b1 b2 rest IH] using list_ind3;
    cbn [base64.EncodeToString String.length List.length]; cbv zeta; try reflexivity.
  cbn [String.length]. rewrite IH.
  replace (4 * S (S (S (List.length rest))) + 2)%nat
    with ((4 * List.length rest + 2) + 4 * 3)%nat by lia.
  rewrite Nat.div_add by lia. lia.
Qed.

(** [Params.Hash] returns an encoded hash whenever the random source
    delivers and the resolved lengths are positive and within the
    allocator's limit, with SHA-256. *)
Lemma Params_Hash_working (p : pbkdf.Params) (password : list byte) (r : rand.Reader) :
  rand.failure r = None ->
  0 < pbkdf.SaltLen (pbkdf.applyDefaults p) <= maxAlloc ->
  0 < pbkdf.KeyLen (pbkdf.applyDefaults p) <= maxAlloc - 31 ->
  pbkdf.HashFunc (pbkdf.applyDefaults p) = Some sha256.New ->
  exists (salt dk : list byte) (r' : rand.Reader),
    len salt = pbkdf.SaltLen (pbkdf.applyDefaults p) /\
    pbkdf.Params_Hash p password r =
    (Ret (pbkdf.format (pbkdf.Iterations (pbkdf.applyDefaults p))
            (pbkdf.KeyLen (pbkdf.applyDefaults p))
            (base64.EncodeToString salt) (base64.EncodeToString dk)) None, r').
Proof.
  intros Hok Hsalt Hkey Hh. unfold pbkdf.Params_Hash. cbv zeta.
  rewrite GenerateSalt_positive, Hok by exact Hsalt. rewrite Hh.
  destruct (Key_returns password
              (map (rand.entropy r)
                 (seq (rand.consumed r) (Z.to_nat (pbkdf.SaltLen (pbkdf.applyDefaults p)))))
              (pbkdf.Iterations (pbkdf.applyDefaults p))
              (pbkdf.KeyLen (pbkdf.applyDefaults p)) sha256.New) as (dk & HK).
  - reflexivity.
  - lia.
  - change (hash.Size sha256.New) with 32. lia.
  - rewrite HK. eexists _, dk, _. split; [|reflexivity].
    unfold len. rewrite length_map, length_seq. lia.
Qed.

(** ** The loop over field 2 *)

(** An entry splits at [=] into a key and a value exactly when it is
    [key=value] with no further [=]. *)
Lemma Split_pair (e k v : string) :
  strings.Split e "=" = [k; v] <->
  e = (k ++ "=" ++ v)%string /\ absent "=" k = true /\ absent "=" v = true.
Proof.
  split.
  - intros H. pose proof (Split_join "=" e) as Hj. pose proof (Split_pieces "=" e) as Hp.
    rewrite H in Hj, Hp.
    pose proof (Forall_inv Hp) as Hk.
    pose proof (Forall_inv (Forall_inv_tail Hp)) as Hv.
    split; [symmetry; exact Hj|]. split; assumption.
  - intros (-> & Hk & Hv).
    change ("=" ++ v)%string with (String "=" v).
    rewrite Split_app by exact Hk. rewrite Split_absent by exact Hv. reflexivity.
Qed.

Lemma parseParams_cons (e : string) (es : list string) (a b : Z) :
  pbkdf.parseParams (e :: es) a b =
  match strings.Split e "=" with
  | [k; v] =>
      if String.eqb k "i" then
        match strconv.Atoi v with
        | Some n => pbkdf.parseParams es n b
        | None => None
        end
      else if String.eqb k "l" then
        match strconv.Atoi v with
        | Some n => pbkdf.parseParams es a n
        | None => None
        end
      else pbkdf.parseParams es a b
  | _ => pbkdf.parseParams es a b
  end.
Proof.
  cbn [pbkdf.parseParams]. cbv zeta.
  destruct (strings.Split e "=") as [|k [|v [|x t]]]; try reflexivity.
  unfold len. cbn [List.length].
  destruct (Z.eqb_spec (Z.of_nat (S (S (S (List.length t))))) 2) as [E|_]; [lia|reflexivity].
Qed.

(** An entry for [i] or [l] whose value [Atoi] refuses stops the loop with
    the error, wherever the entry stands. *)
Lemma parseParams_bad (es : list string) :
  forall (a b : Z) (e k v : string),
    In e es -> strings.Split e "=" = [k; v] -> k = "i" \/ k = "l" ->
    strconv.Atoi v = None ->
    pbkdf.parseParams es a b = None.
Proof.
  induction es as [|e0 es IH]; intros a b e k v Hin Hsplit Hk Hv; [contradiction|].
  rewrite parseParams_cons. destruct Hin as [-> | Hin].
  - rewrite Hsplit. destruct Hk as [-> | ->]; cbn; rewrite Hv; reflexivity.
  - pose proof (fun a b => IH a b e k v Hin Hsplit Hk Hv) as IH'.
    destruct (strings.Split e0 "=") as [|k0 [|v0 [|x t]]]; try apply IH'.
    destruct (String.eqb k0 "i"); [destruct (strconv.Atoi v0); [apply IH'|reflexivity]|].
    destruct (String.eqb k0 "l"); [destruct (strconv.Atoi v0); [apply IH'|reflexivity]|].
    apply IH'.
Qed.

(** Where the numbers the loop returns come from: the initial value, or an
    entry [i=<v>] (or [l=<v>]) whose value [Atoi] reads as that number. *)
Lemma parseParams_origin (es : list string) :
  forall a b i l : Z,
    pbkdf.parseParams es a b = Some (i, l) ->
    (i = a \/ exists v : string,
        In ("i=" ++ v)%string es /\ absent "=" v = true /\ strconv.Atoi v = Some i) /\
    (l = b \/ exists v : string,
        In ("l=" ++ v)%string es /\ absent "=" v = true /\ strconv.Atoi v = Some l).
Proof.
  induction es as [|e es IH]; intros a b i l H.
  - injection H as <- <-. auto.
  - rewrite parseParams_cons in H.
    assert (Hweak : forall a' b',
               pbkdf.parseParams es a' b' = Some (i, l) ->
               (i = a' \/ exists v : string,
                   In ("i=" ++ v)%string (e :: es) /\ absent "=" v = true /\
                   strconv.Atoi v = Some i) /\
               (l = b' \/ exists v : string,
                   In ("l=" ++ v)%string (e :: es) /\ absent "=" v = true /\
                   strconv.Atoi v = Some l)).
    { intros a' b' H'. destruct (IH a' b' i l H') as [Hi Hl]. split.
      - destruct Hi as [Hi | (v & Hin & Hv)]; [left; exact Hi|].
        right. exists v. split; [right; exact Hin|exact Hv].
      - destruct Hl as [Hl | (v & Hin & Hv)]; [left; exact Hl|].
        right. exists v. split; [right; exact Hin|exact Hv]. }
    destruct (strings.Split e "=") as [|k [|v [|x t]]] eqn:Hsplit; try (apply Hweak; exact H).
    apply Split_pair in Hsplit as (-> & Hk & Hv).
    destruct (String.eqb_spec k "i") as [-> | Hki].
    + destruct (strconv.Atoi v) as [n|] eqn:Hn; [|discriminate].
      destruct (Hweak n b H) as [Hi Hl]. split; [|exact Hl].
      destruct Hi as [-> | Hi]; [|right; exact Hi].
      right. exists v. split; [left; reflexivity|]. split; assumption.
    + destruct (String.eqb_spec k "l") as [-> | Hkl].
      * destruct (strconv.Atoi v) as [n|] eqn:Hn; [|discriminate].
        destruct (Hweak a n H) as [Hi Hl]. split; [exact Hi|].
        destruct Hl as [-> | Hl]; [|right; exact Hl].
        right. exists v. split; [left; reflexivity|]. split; assumption.
      * apply Hweak. exact H.
Qed.

(** An entry that is no [key=value] pair, or whose key is neither [i] nor
    [l], is skipped. *)
Lemma parseParams_skip (es1 : list string) :
  forall (e : string) (es2 : list string) (a b : Z),
    (forall k v : string, strings.Split e "=" = [k; v] -> k <> "i" /\ k <> "l") ->
    pbkdf.parseParams (es1 ++ e :: es2) a b = pbkdf.parseParams (es1 ++ es2) a b.
Proof.
  induction es1 as [|e1 es1 IH]; intros e es2 a b He.
  - cbn [app]. rewrite parseParams_cons.
    destruct (strings.Split e "=") as [|k [|v [|x t]]]; try reflexivity.
    destruct (He k v eq_refl) as [Hi Hl].
    destruct (String.eqb_spec k "i"); [contradiction|].
    destruct (String.eqb_spec k "l"); [contradiction|]. reflexivity.
  - cbn [app]. rewrite !parseParams_cons.
    destruct (strings.Split e1 "=") as [|k [|v [|x t]]]; try (apply IH; exact He).
    destruct (String.eqb k "i"); [destruct (strconv.Atoi v); [apply IH; exact He|reflexivity]|].
    destruct (String.eqb k "l"); [destruct (strconv.Atoi v); [apply IH; exact He|reflexivity]|].
    apply IH; exact He.
Qed.

(** [parse], field by field. *)
Lemma parse_fields (encodedHash : string) :
  pbkdf.parse encodedHash =
  let parts := strings.Split encodedHash "$" in
  if negb (len parts =? 5) then None
  else if negb (String.eqb (nth 1 parts EmptyString) "pbkdf2-sha256") then None
  else match pbkdf.parseParams (strings.Split (nth 2 parts EmptyString) ",") 0 0 with
       | None => None
       | Some (iterations, keyLen) =>
           if (iterations =? 0) || (keyLen =? 0) then None
           else match base64.DecodeString (nth 3 parts EmptyString),
                      base64.DecodeString (nth 4 parts EmptyString) with
                | Some salt, Some decodedHash => Some (iterations, keyLen, salt, decodedHash)
                | _, _ => None
                end
       end.
Proof.
  unfold pbkdf.parse. cbv zeta.
  destruct (strings.Split encodedHash "$") as [|f0 [|f1 [|f2 [|f3 [|f4 [|f5 fs]]]]]];
    try reflexivity.
  - cbn [len List.length nth]. change (Z.of_nat 5 =? 5) with true. cbn [negb].
    destruct (String.eqb f1 "pbkdf2-sha256"); reflexivity.
  - unfold len. cbn [List.length].
    destruct (Z.eqb_spec (Z.of_nat (S (S (S (S (S (S (List.length fs)))))))) 5) as [E|_];
      [lia|reflexivity].
Qed.

Lemma Verify_invalid (password : list byte) (encodedHash : string) :
  pbkdf.parse encodedHash = None ->
  pbkdf.Verify password encodedHash =
  Ret false (Some (errors.New "invalid or corrupted hash")).
Proof. intros H. rewrite Verify_parse, H. reflexivity. Qed.

Lemma Verify_error (password : list byte) (encodedHash : string) (b : bool) (e : error) :
  pbkdf.Verify password encodedHash = Ret b (Some e) ->
  pbkdf.parse encodedHash = None /\ b = false /\ e = errors.New "invalid or corrupted hash".
Proof.
  rewrite Verify_parse.
  destruct (pbkdf.parse encodedHash) as [[[[i l] salt] stored]|].
  - destruct (pbkdf2.Key password salt i l (Some sha256.New)) as [dk|]; [|discriminate].
    destruct (subtle.ConstantTimeCompare dk stored =? 1); discriminate.
  - intros H. injection H as <- <-. auto.
Qed.

Lemma Verify_parsed (password : list byte) (encodedHash : string) (iterations keyLen : Z)
      (salt decodedHash : list byte) :
  pbkdf.parse encodedHash = Some (iterations, keyLen, salt, decodedHash) ->
  pbkdf.Verify password encodedHash =
  match pbkdf2.Key password salt iterations keyLen (Some sha256.New) with
  | None => Panic
  | Some dk => Ret (subtle.ConstantTimeCompare dk decodedHash =? 1) None
  end.
Proof.
  intros H. rewrite Verify_parse, H.
  destruct (pbkdf2.Key password salt iterations keyLen (Some sha256.New)) as [dk|];
    [|reflexivity].
  destruct (subtle.ConstantTimeCompare dk decodedHash =? 1); reflexivity.
Qed.

Lemma Verify_bad_entry (password : list byte) (encodedHash : string) (e k v : string) :
  In e (strings.Split (nth 2 (strings.Split encodedHash "$") EmptyString) ",") ->
  strings.Split e "=" = [k; v] -> k = "i" \/ k = "l" ->
  strconv.Atoi v = None ->
  pbkdf.Verify password encodedHash =
  Ret false (Some (errors.New "invalid or corrupted hash")).
Proof.
  intros Hin Hsplit Hk Hv. apply Verify_invalid. rewrite parse_fields. cbv zeta.
  destruct (negb (len (strings.Split encodedHash "$") =? 5)); [reflexivity|].
  destruct (negb (String.eqb _ _)); [reflexivity|].
  rewrite (parseParams_bad _ 0 0 e k v Hin Hsplit Hk Hv). reflexivity.
Qed.

(** With key length, salt length and hash family left to the defaults,
    [Params.Hash] returns whenever the random source delivers: field 2
    names the resolved iteration count and [l=32], the salt has 16 bytes. *)
Lemma Hash_with_defaults (p : pbkdf.Params) (password : list byte) (r : rand.Reader) :
  rand.failure r = None ->
  pbkdf.KeyLen p = 0 -> pbkdf.SaltLen p = 0 -> pbkdf.HashFunc p = None ->
  exists (s : string) (r' : rand.Reader) (salt : list byte),
    pbkdf.Params_Hash p password r = (Ret s None, r') /\
    nth 2 (strings.Split s "$") EmptyString =
      pbkdf.field2 (pbkdf.Iterations (pbkdf.applyDefaults p)) 32 /\
    base64.DecodeString (nth 3 (strings.Split s "$") EmptyString) = Some salt /\
    len salt = 16.
Proof.
  intros Hok Hk Hs Hh.
  assert (EK : pbkdf.KeyLen (pbkdf.applyDefaults p) = 32)
    by (rewrite applyDefaults_KeyLen, Hk; reflexivity).
  assert (ES : pbkdf.SaltLen (pbkdf.applyDefaults p) = 16)
    by (rewrite applyDefaults_SaltLen, Hs; reflexivity).
  assert (HA : maxAlloc = 281474976710656) by reflexivity.
  destruct (Params_Hash_working p password r Hok) as (salt & dk & r' & Hlen & HH).
  - lia.
  - lia.
  - unfold pbkdf.applyDefaults. cbn [pbkdf.HashFunc]. rewrite Hh. reflexivity.
  - rewrite EK in HH. rewrite ES in Hlen.
    eexists _, r', salt. split; [exact HH|]. rewrite format_Split. cbn [nth].
    split; [reflexivity|]. split; [apply DecodeString_EncodeToString|exact Hlen].
Qed.

(** ** Worked examples *)

(** The test vector of FIPS 180-4 for the message [abc]. *)
Example Sum256_abc :
  sha256.Sum256 (list_byte_of_string "abc") =
  map byte_of_Z [0xba; 0x78; 0x16; 0xbf; 0x8f; 0x01; 0xcf; 0xea; 0x41; 0x41; 0x40; 0xde;
                 0x5d; 0xae; 0x22; 0x23; 0xb0; 0x03; 0x61; 0xa3; 0x96; 0x17; 0x7a; 0x9c;
                 0xb4; 0x10; 0xff; 0x61; 0xf2; 0x00; 0x15; 0xad].
Proof. vm_compute. reflexivity. Qed.

(** PBKDF2-HMAC-SHA256 of [password] and [salt], one iteration, 32 bytes. *)
Example Key_password_salt :
  pbkdf2.Key (list_byte_of_string "password") (list_byte_of_string "salt") 1 32
    (Some sha256.New) =
  Some (map byte_of_Z
          [0x12; 0x0f; 0xb6; 0xcf; 0xfc; 0xf8; 0xb3; 0x2c; 0x43; 0xe7; 0x22; 0x52;
           0x56; 0xc4; 0xf8; 0x37; 0xa8; 0x65; 0x48; 0xc9; 0x2c; 0xcc; 0x35; 0x48;
           0x08; 0x05; 0x98; 0x7c; 0xb7; 0x0b; 0xe1; 0x7b]).
Proof. vm_compute. reflexivity. Qed.

Example Split_encoded :
  strings.Split exampleHash "$" =
  [EmptyString; "pbkdf2-sha256"; "i=1,l=32"; "AwoRGB8mLTQ7QklQV15lbA";
   "cQdzqrcwUax9FtrE8Oqh8LY5+kZHyCzi/t39YJAAAlE"].
Proof. reflexivity. Qed.

Example Atoi_examples :
  strconv.Atoi "120000" = Some 120000 /\ strconv.Atoi "-7" = Some (-7) /\
  strconv.Atoi "+7" = Some 7 /\ strconv.Atoi "abc" = None /\
  strconv.Atoi EmptyString = None /\ strconv.Atoi "9223372036854775808" = None.
Proof. repeat split. Qed.

Example Hash_example :
  fst (pbkdf.Params_Hash exampleParams examplePassword workingReader) = Ret exampleHash None.
Proof. vm_compute. reflexivity. Qed.

Example parse_example :
  pbkdf.parse exampleHash = Some (1, 32, exampleSalt, exampleKey).
Proof. vm_compute. reflexivity. Qed.

(** A negative iteration count is read and handed to [pbkdf2.Key], whose
    inner loop then does not run: the hash verifies as with [i=1]. *)
Example Verify_negative_iterations :
  pbkdf.Verify examplePassword
    "$pbkdf2-sha256$i=-7,l=32$AwoRGB8mLTQ7QklQV15lbA$cQdzqrcwUax9FtrE8Oqh8LY5+kZHyCzi/t39YJAAAlE" =
  Ret true None.
Proof. vm_compute. reflexivity. Qed.

(** A negative key length is read and handed to [pbkdf2.Key], which panics. *)
Example Verify_negative_keyLen :
  pbkdf.Verify examplePassword "$pbkdf2-sha256$i=1,l=-1$$" = Panic.
Proof. reflexivity. Qed.

(* ================================================================= *)
(** * The claims *)

(** C6, as stated, fails on two counts.  Not every positive length gives
    bytes: above the allocator's limit [make] panics.  And a failure of the
    random source does not come back to the caller as an error: [rand.Read]
    (Go 1.24 and later) ends the process instead. *)
Lemma GenerateSalt_neither_bytes_nor_error :
  pbkdf.GenerateSalt (maxAlloc + 1) workingReader = (Panic, workingReader) /\
  pbkdf.GenerateSalt 16 brokenReader = (Crash, brokenReader).
Proof. split; reflexivity. Qed.

(** C6, amended.  [GenerateSalt(length)] returns an error if and only if
    [length <= 0]; the error is then "salt length must be positive", and it
    returns no other error.  Whenever it returns bytes there are exactly
    [length] of them, and it does return the next [length] bytes of a
    delivering random source for every length from 1 to [2 ^ 20].  Above
    the allocator's limit it panics, and a failing random source ends the
    process. *)
Theorem GenerateSalt_outcomes (length : Z) (r : rand.Reader) :
  ((exists v : list byte,
       fst (pbkdf.GenerateSalt length r) =
       Ret v (Some (errors.New "salt length must be positive"))) <-> length <= 0) /\
  (forall (v : list byte) (e : error),
      fst (pbkdf.GenerateSalt length r) = Ret v (Some e) ->
      length <= 0 /\ v = [] /\ e = errors.New "salt length must be positive") /\
  (forall salt : list byte,
      fst (pbkdf.GenerateSalt length r) = Ret salt None ->
      0 < length /\ len salt = length) /\
  (0 < length <= 2 ^ 20 -> rand.failure r = None ->
   exists salt : list byte,
     fst (pbkdf.GenerateSalt length r) = Ret salt None /\ len salt = length /\
     salt = map (rand.entropy r) (seq (rand.consumed r) (Z.to_nat length))) /\
  (maxAlloc < length -> pbkdf.GenerateSalt length r = (Panic, r)) /\
  (0 < length <= maxAlloc -> rand.failure r <> None ->
   pbkdf.GenerateSalt length r = (Crash, r)).
Proof.
  assert (HA : maxAlloc = 281474976710656) by reflexivity.
  assert (H20 : 2 ^ 20 = 1048576) by reflexivity.
  assert (Herr : forall (v : list byte) (e : error),
             fst (pbkdf.GenerateSalt length r) = Ret v (Some e) ->
             length <= 0 /\ v = [] /\ e = errors.New "salt length must be positive").
  { intros v e Hv. destruct (Z.leb_spec length 0) as [Hle|Hpos].
    - rewrite GenerateSalt_nonpositive in Hv by exact Hle. cbn [fst] in Hv.
      injection Hv as <- <-. auto.
    - exfalso. destruct (Z.ltb_spec maxAlloc length) as [Hbig|Hsmall].
      + rewrite GenerateSalt_huge in Hv by exact Hbig. discriminate Hv.
      + rewrite GenerateSalt_positive in Hv by lia.
        destruct (rand.failure r); discriminate Hv. }
  split; [|split; [exact Herr|split; [|split; [|split]]]].
  - split.
    + intros (v & Hv). apply Herr in Hv. tauto.
    + intros H. rewrite GenerateSalt_nonpositive by exact H. eexists. reflexivity.
  - intros salt Hs.
    destruct (pbkdf.GenerateSalt length r) as [res r'] eqn:HG. cbn [fst] in Hs. subst res.
    apply GenerateSalt_returns in HG as (Hpos & _ & -> & _).
    split; [lia|]. unfold len. rewrite length_map, length_seq. lia.
  - intros Hpos Hok. rewrite GenerateSalt_positive, Hok by lia.
    eexists. split; [reflexivity|]. split; [|reflexivity].
    unfold len. rewrite length_map, length_seq. lia.
  - apply GenerateSalt_huge.
  - intros Hpos Hbad. rewrite GenerateSalt_positive by exact Hpos.
    destruct (rand.failure r); [reflexivity|contradiction].
Qed.

Lemma GenerateSalt_outcomes_witness :
  (exists salt : list byte,
      fst (pbkdf.GenerateSalt 16 workingReader) = Ret salt None /\ len salt = 16 /\
      salt = map (rand.entropy workingReader)
               (seq (rand.consumed workingReader) (Z.to_nat 16))) /\
  (exists v : list byte,
      fst (pbkdf.GenerateSalt (-1) workingReader) =
      Ret v (Some (errors.New "salt length must be positive"))) /\
  pbkdf.GenerateSalt 16 brokenReader = (Crash, brokenReader).
Proof.
  split; [|split].
  - apply (proj1 (proj2 (proj2 (proj2 (GenerateSalt_outcomes 16 workingReader)))));
      [vm_compute; split; [reflexivity|discriminate]|reflexivity].
  - apply (proj1 (GenerateSalt_outcomes (-1) workingReader)). lia.
  - apply (proj2 (proj2 (proj2 (proj2 (proj2 (GenerateSalt_outcomes 16 brokenReader))))));
      [vm_compute; split; [reflexivity|discriminate]|discriminate].
Defined.

(** C9. The comparison in [Verify] is constant-time.  [Verify_leak] is
    [Verify] together with what its comparison of the derived key with the
    stored key leaks (the outcome of every branch, the index of every
    access).  For any two passwords and any two parsed hashes whose derived
    keys have the same length and whose stored keys have the same length,
    [Verify] leaks the same: what it leaks does not depend on where or
    whether the keys differ.  When derived and stored key have the same
    length the loop visits every byte (three events a byte, no early exit);
    otherwise the length check is all that happens.  The same holds of
    [subtle.ConstantTimeCompare] on any slices. *)
Theorem Verify_constant_time :
  (forall (password password' : list byte) (encodedHash encodedHash' : string)
          (iterations iterations' keyLen keyLen' : Z)
          (salt salt' decodedHash decodedHash' dk dk' : list byte),
      pbkdf.parse encodedHash = Some (iterations, keyLen, salt, decodedHash) ->
      pbkdf.parse encodedHash' = Some (iterations', keyLen', salt', decodedHash') ->
      pbkdf2.Key password salt iterations keyLen (Some sha256.New) = Some dk ->
      pbkdf2.Key password' salt' iterations' keyLen' (Some sha256.New) = Some dk' ->
      len dk = len dk' -> len decodedHash = len decodedHash' ->
      snd (pbkdf.Verify_leak password encodedHash) =
      snd (pbkdf.Verify_leak password' encodedHash')) /\
  (forall (password : list byte) (encodedHash : string) (iterations keyLen : Z)
          (salt decodedHash dk : list byte),
      pbkdf.parse encodedHash = Some (iterations, keyLen, salt, decodedHash) ->
      pbkdf2.Key password salt iterations keyLen (Some sha256.New) = Some dk ->
      pbkdf.Verify_leak password encodedHash =
      (Ret (fst (subtle.ConstantTimeCompare_leak dk decodedHash) =? 1) None,
       snd (subtle.ConstantTimeCompare_leak dk decodedHash)) /\
      (len dk = len decodedHash ->
       List.length (snd (pbkdf.Verify_leak password encodedHash)) =
       (3 * List.length dk + 2)%nat) /\
      (len dk <> len decodedHash ->
       List.length (snd (pbkdf.Verify_leak password encodedHash)) = 1%nat)) /\
  (forall x y x' y' : list byte,
      len x = len x' -> len y = len y' ->
      snd (subtle.ConstantTimeCompare_leak x y) =
      snd (subtle.ConstantTimeCompare_leak x' y')) /\
  (forall x y : list byte,
      len x = len y ->
      List.length (snd (subtle.ConstantTimeCompare_leak x y)) =
      (3 * List.length x + 2)%nat).
Proof.
  assert (Hret : forall (password : list byte) (encodedHash : string) (iterations keyLen : Z)
                        (salt decodedHash dk : list byte),
             pbkdf.parse encodedHash = Some (iterations, keyLen, salt, decodedHash) ->
             pbkdf2.Key password salt iterations keyLen (Some sha256.New) = Some dk ->
             pbkdf.Verify_leak password encodedHash =
             (Ret (fst (subtle.ConstantTimeCompare_leak dk decodedHash) =? 1) None,
              snd (subtle.ConstantTimeCompare_leak dk decodedHash))).
  { intros password encodedHash iterations keyLen salt decodedHash dk Hparse HK.
    rewrite Verify_leak_parse, Hparse, HK.
    destruct (fst (subtle.ConstantTimeCompare_leak dk decodedHash) =? 1); reflexivity. }
  split; [|split; [|split]].
  - intros password password' encodedHash encodedHash' iterations iterations' keyLen keyLen'
           salt salt' decodedHash decodedHash' dk dk' Hp Hp' HK HK' Hdk Hst.
    rewrite (Hret _ _ _ _ _ _ _ Hp HK), (Hret _ _ _ _ _ _ _ Hp' HK'). cbn [snd].
    apply ConstantTimeCompare_leak_lengths; assumption.
  - intros password encodedHash iterations keyLen salt decodedHash dk Hp HK.
    rewrite (Hret _ _ _ _ _ _ _ Hp HK). cbn [snd].
    split; [reflexivity|]. split.
    + apply ConstantTimeCompare_leak_rounds.
    + apply ConstantTimeCompare_leak_mismatch.
  - apply ConstantTimeCompare_leak_lengths.
  - apply ConstantTimeCompare_leak_rounds.
Qed.

Lemma Verify_constant_time_witness :
  snd (pbkdf.Verify_leak examplePassword exampleHash) =
  snd (pbkdf.Verify_leak [x78]
         "$pbkdf2-sha256$i=1,l=32$AwoRGB8mLTQ7QklQV15lbA$cQdzqrcwUax9FtrE8Oqh8LY5+kZHyCzi/t39YJAAAlA").
Proof.
  eapply (proj1 Verify_constant_time examplePassword [x78] exampleHash _
            1 1 32 32 exampleSalt exampleSalt exampleKey _ _ _).
  - vm_compute. reflexivity.
  - vm_compute. reflexivity.
  - vm_compute. reflexivity.
  - vm_compute. reflexivity.
  - vm_compute. reflexivity.
  - vm_compute. reflexivity.
Defined.

(** C10. Defaults replace fields that are exactly zero only.  A strictly
    negative [SaltLen] goes to [GenerateSalt] as it is, and [Params.Hash]
    returns the empty string with the error "salt length must be positive";
    strictly negative [Iterations] and [KeyLen] go to [pbkdf2.Key] as they
    are (which panics on a negative key length). *)
Theorem negative_params_not_defaulted (p : pbkdf.Params) (password : list byte)
      (r : rand.Reader) :
  (pbkdf.SaltLen p < 0 ->
   pbkdf.SaltLen (pbkdf.applyDefaults p) = pbkdf.SaltLen p /\
   pbkdf.Params_Hash p password r =
   (Ret EmptyString (Some (errors.New "salt length must be positive")), r)) /\
  (pbkdf.Iterations p < 0 ->
   forall (salt : list byte) (r' : rand.Reader),
     pbkdf.GenerateSalt (pbkdf.SaltLen (pbkdf.applyDefaults p)) r = (Ret salt None, r') ->
     pbkdf.Params_Hash p password r =
     (match pbkdf2.Key password salt (pbkdf.Iterations p) (pbkdf.KeyLen (pbkdf.applyDefaults p))
              (pbkdf.HashFunc (pbkdf.applyDefaults p)) with
      | None => Panic
      | Some dk =>
          Ret (pbkdf.format (pbkdf.Iterations p) (pbkdf.KeyLen (pbkdf.applyDefaults p))
                 (base64.EncodeToString salt) (base64.EncodeToString dk)) None
      end, r')) /\
  (pbkdf.KeyLen p < 0 ->
   forall (salt : list byte) (r' : rand.Reader),
     pbkdf.GenerateSalt (pbkdf.SaltLen (pbkdf.applyDefaults p)) r = (Ret salt None, r') ->
     pbkdf.Params_Hash p password r =
     (match pbkdf2.Key password salt (pbkdf.Iterations (pbkdf.applyDefaults p)) (pbkdf.KeyLen p)
              (pbkdf.HashFunc (pbkdf.applyDefaults p)) with
      | None => Panic
      | Some dk =>
          Ret (pbkdf.format (pbkdf.Iterations (pbkdf.applyDefaults p)) (pbkdf.KeyLen p)
                 (base64.EncodeToString salt) (base64.EncodeToString dk)) None
      end, r') /\
     pbkdf.Params_Hash p password r = (Panic, r')).
Proof.
  split; [|split].
  - intros Hneg.
    assert (E : pbkdf.SaltLen (pbkdf.applyDefaults p) = pbkdf.SaltLen p).
    { rewrite applyDefaults_SaltLen. destruct (Z.eqb_spec (pbkdf.SaltLen p) 0); [lia|reflexivity]. }
    split; [exact E|].
    unfold pbkdf.Params_Hash. cbv zeta. rewrite E.
    rewrite GenerateSalt_nonpositive by lia. reflexivity.
  - intros Hneg salt r' Hsalt.
    assert (E : pbkdf.Iterations (pbkdf.applyDefaults p) = pbkdf.Iterations p).
    { rewrite applyDefaults_Iterations.
      destruct (Z.eqb_spec (pbkdf.Iterations p) 0); [lia|reflexivity]. }
    unfold pbkdf.Params_Hash. cbv zeta. rewrite Hsalt, E.
    destruct (pbkdf2.Key password salt _ _ _); reflexivity.
  - intros Hneg salt r' Hsalt.
    assert (E : pbkdf.KeyLen (pbkdf.applyDefaults p) = pbkdf.KeyLen p).
    { rewrite applyDefaults_KeyLen.
      destruct (Z.eqb_spec (pbkdf.KeyLen p) 0); [lia|reflexivity]. }
    unfold pbkdf.Params_Hash. cbv zeta. rewrite Hsalt, E.
    rewrite (Key_negative _ _ _ _ _ Hneg). split; reflexivity.
Qed.

Lemma negative_params_not_defaulted_witness :
  pbkdf.Params_Hash
    {| pbkdf.Iterations := 0; pbkdf.KeyLen := 0; pbkdf.SaltLen := -1; pbkdf.HashFunc := None |}
    examplePassword workingReader =
  (Ret EmptyString (Some (errors.New "salt length must be positive")), workingReader) /\
  fst (pbkdf.Params_Hash
         {| pbkdf.Iterations := 0; pbkdf.KeyLen := -1; pbkdf.SaltLen := 0;
            pbkdf.HashFunc := None |}
         examplePassword workingReader) = Panic.
Proof.
  split.
  - apply (proj1 (negative_params_not_defaulted
                    {| pbkdf.Iterations := 0; pbkdf.KeyLen := 0; pbkdf.SaltLen := -1;
                       pbkdf.HashFunc := None |} examplePassword workingReader)).
    simpl. lia.
  - rewrite (proj2 (proj2 (proj2 (negative_params_not_defaulted
                       {| pbkdf.Iterations := 0; pbkdf.KeyLen := -1; pbkdf.SaltLen := 0;
                          pbkdf.HashFunc := None |} examplePassword workingReader))
                     ltac:(simpl; lia) exampleSalt
                     (snd (pbkdf.GenerateSalt 16 workingReader)) ltac:(reflexivity))).
    reflexivity.
Defined.

(** C7. Every string returned by a successful [Params.Hash] is
    [$pbkdf2-sha256$i=<iterations>,l=<keyLen>$<base64(salt)>$<base64(dk)>]:
    split at [$] it has five fields, the first one empty; the two numbers
    are the resolved parameters printed in decimal; salt and derived key
    are in the standard alphabet without padding, so no [=] occurs in
    them and the encoding of [n] bytes has [ceil(4n/3)] characters. *)
Theorem Hash_wire_format (p : pbkdf.Params) (password : list byte) (r r' : rand.Reader)
      (s : string) :
  pbkdf.Params_Hash p password r = (Ret s None, r') ->
  exists salt dk : list byte,
    pbkdf.GenerateSalt (pbkdf.SaltLen (pbkdf.applyDefaults p)) r = (Ret salt None, r') /\
    pbkdf2.Key password salt (pbkdf.Iterations (pbkdf.applyDefaults p))
      (pbkdf.KeyLen (pbkdf.applyDefaults p)) (pbkdf.HashFunc (pbkdf.applyDefaults p)) = Some dk /\
    s = ("$pbkdf2-sha256$i=" ++ fmt.fmt_d (pbkdf.Iterations (pbkdf.applyDefaults p)) ++
         ",l=" ++ fmt.fmt_d (pbkdf.KeyLen (pbkdf.applyDefaults p)) ++
         "$" ++ base64.EncodeToString salt ++ "$" ++ base64.EncodeToString dk)%string /\
    strings.Split s "$" =
    [EmptyString; "pbkdf2-sha256";
     ("i=" ++ fmt.fmt_d (pbkdf.Iterations (pbkdf.applyDefaults p)) ++
      ",l=" ++ fmt.fmt_d (pbkdf.KeyLen (pbkdf.applyDefaults p)))%string;
     base64.EncodeToString salt; base64.EncodeToString dk] /\
    allChars (fun c => strconv.isDigit c || Ascii.eqb c "-")
      (fmt.fmt_d (pbkdf.Iterations (pbkdf.applyDefaults p))) = true /\
    allChars (fun c => strconv.isDigit c || Ascii.eqb c "-")
      (fmt.fmt_d (pbkdf.KeyLen (pbkdf.applyDefaults p))) = true /\
    base64.inAlphabet (base64.EncodeToString salt) = true /\
    base64.inAlphabet (base64.EncodeToString dk) = true /\
    absent "=" (base64.EncodeToString salt) = true /\
    absent "=" (base64.EncodeToString dk) = true /\
    String.length (base64.EncodeToString salt) = ((4 * List.length salt + 2) / 3)%nat /\
    String.length (base64.EncodeToString dk) = ((4 * List.length dk + 2) / 3)%nat.
Proof.
  intros H. apply Params_Hash_returns in H as (salt & dk & Hsalt & HK & ->).
  exists salt, dk.
  split; [exact Hsalt|]. split; [exact HK|]. split; [reflexivity|].
  split; [apply format_Split|].
  split; [apply fmt_d_chars|]. split; [apply fmt_d_chars|].
  split; [apply EncodeToString_inAlphabet|]. split; [apply EncodeToString_inAlphabet|].
  split; [apply inAlphabet_absent; [reflexivity|apply EncodeToString_inAlphabet]|].
  split; [apply inAlphabet_absent; [reflexivity|apply EncodeToString_inAlphabet]|].
  split; apply EncodeToString_length.
Qed.

Lemma Hash_wire_format_witness :
  exists salt dk : list byte,
    strings.Split exampleHash "$" =
    [EmptyString; "pbkdf2-sha256"; "i=1,l=32";
     base64.EncodeToString salt; base64.EncodeToString dk] /\
    absent "=" (base64.EncodeToString salt) = true /\
    absent "=" (base64.EncodeToString dk) = true.
Proof.
  destruct (Hash_wire_format exampleParams examplePassword workingReader
              (snd (pbkdf.Params_Hash exampleParams examplePassword workingReader))
              exampleHash)
    as (salt & dk & _ & _ & _ & Hsplit & _ & _ & _ & _ & Hs & Hd & _).
  - vm_compute. reflexivity.
  - exists salt, dk. split; [exact Hsplit|]. split; assumption.
Defined.

(** C5. Resolving a parameter set against the defaults is a total function
    that replaces every zero (nil) field by iterations = 120000, key
    length = 32, salt length = 16, SHA-256 and keeps every other field.
    Hence, whenever the random source delivers, [Params.Hash] with all-zero
    parameters (and so [Hash]) returns a string whose field 2 is exactly
    [i=120000,l=32] and whose salt decodes to 16 bytes, and with only
    [Iterations = 1000] set field 2 is [i=1000,l=32], the salt again 16
    bytes. *)
Theorem defaults_resolution :
  (forall p : pbkdf.Params,
      pbkdf.Iterations (pbkdf.applyDefaults p) =
        (if pbkdf.Iterations p =? 0 then 120000 else pbkdf.Iterations p) /\
      pbkdf.KeyLen (pbkdf.applyDefaults p) =
        (if pbkdf.KeyLen p =? 0 then 32 else pbkdf.KeyLen p) /\
      pbkdf.SaltLen (pbkdf.applyDefaults p) =
        (if pbkdf.SaltLen p =? 0 then 16 else pbkdf.SaltLen p) /\
      pbkdf.HashFunc (pbkdf.applyDefaults p) =
        match pbkdf.HashFunc p with
        | None => Some sha256.New
        | Some h => Some h
        end) /\
  (forall (password : list byte) (r : rand.Reader),
      pbkdf.Hash password r = pbkdf.Params_Hash zeroParams password r) /\
  (forall (password : list byte) (r : rand.Reader),
      rand.failure r = None ->
      exists (s : string) (r' : rand.Reader) (salt : list byte),
        pbkdf.Params_Hash zeroParams password r = (Ret s None, r') /\
        nth 2 (strings.Split s "$") EmptyString = "i=120000,l=32" /\
        base64.DecodeString (nth 3 (strings.Split s "$") EmptyString) = Some salt /\
        len salt = 16) /\
  (forall (password : list byte) (r : rand.Reader),
      rand.failure r = None ->
      exists (s : string) (r' : rand.Reader) (salt : list byte),
        pbkdf.Params_Hash
          {| pbkdf.Iterations := 1000; pbkdf.KeyLen := 0; pbkdf.SaltLen := 0;
             pbkdf.HashFunc := None |} password r = (Ret s None, r') /\
        nth 2 (strings.Split s "$") EmptyString = "i=1000,l=32" /\
        base64.DecodeString (nth 3 (strings.Split s "$") EmptyString) = Some salt /\
        len salt = 16).
Proof.
  split; [|split; [|split]].
  - intros p. repeat split.
  - intros password r. reflexivity.
  - intros password r Hok.
    destruct (Hash_with_defaults zeroParams password r Hok eq_refl eq_refl eq_refl)
      as (s & r' & salt & HH & Hf & Hs & Hlen).
    exists s, r', salt. rewrite Hf. auto.
  - intros password r Hok.
    destruct (Hash_with_defaults
                {| pbkdf.Iterations := 1000; pbkdf.KeyLen := 0; pbkdf.SaltLen := 0;
                   pbkdf.HashFunc := None |} password r Hok eq_refl eq_refl eq_refl)
      as (s & r' & salt & HH & Hf & Hs & Hlen).
    exists s, r', salt. rewrite Hf. auto.
Qed.

Lemma defaults_resolution_witness :
  exists (s : string) (r' : rand.Reader) (salt : list byte),
    pbkdf.Params_Hash zeroParams examplePassword workingReader = (Ret s None, r') /\
    nth 2 (strings.Split s "$") EmptyString = "i=120000,l=32" /\
    base64.DecodeString (nth 3 (strings.Split s "$") EmptyString) = Some salt /\
    len salt = 16.
Proof.
  apply (proj1 (proj2 (proj2 defaults_resolution)) examplePassword workingReader).
  reflexivity.
Defined.

(** C1. Round trip: for every password (the empty one included) and every
    parameter set whose hash family is SHA-256 (given or by default), if
    [Params.Hash] returns an encoded string then [Verify] of the same
    password and that string returns [true] and no error. *)
Theorem Hash_Verify_roundtrip (p : pbkdf.Params) (password : list byte)
      (r r' : rand.Reader) (s : string) :
  is_int (pbkdf.Iterations p) = true ->
  is_int (pbkdf.KeyLen p) = true ->
  pbkdf.HashFunc p = None \/ pbkdf.HashFunc p = Some sha256.New ->
  pbkdf.Params_Hash p password r = (Ret s None, r') ->
  pbkdf.Verify password s = Ret true None.
Proof.
  intros Hi Hl Hh H.
  apply Params_Hash_returns in H as (salt & dk & _ & HK & ->).
  destruct (applyDefaults_is_int p Hi Hl) as [Hi' Hl'].
  destruct (applyDefaults_nonzero p) as (Hi0 & Hl0 & _ & _).
  assert (Hsha : pbkdf.HashFunc (pbkdf.applyDefaults p) = Some sha256.New).
  { unfold pbkdf.applyDefaults. cbn [pbkdf.HashFunc].
    destruct Hh as [-> | ->]; reflexivity. }
  rewrite Hsha in HK.
  rewrite Verify_parse, (parse_format _ _ salt dk Hi' Hl' Hi0 Hl0), HK.
  destruct (ConstantTimeCompare_eqb dk dk) as [_ Heq]. rewrite (Heq eq_refl). reflexivity.
Qed.

Lemma Hash_Verify_roundtrip_witness :
  pbkdf.Verify examplePassword exampleHash = Ret true None.
Proof.
  apply (Hash_Verify_roundtrip exampleParams examplePassword workingReader
           (snd (pbkdf.Params_Hash exampleParams examplePassword workingReader))
           exampleHash).
  - reflexivity.
  - reflexivity.
  - left. reflexivity.
  - vm_compute. reflexivity.
Defined.

(** C8. For an encoded hash that parses, [Verify] derives the key from the
    candidate password, the parsed salt, the parsed iteration count and the
    parsed key length with SHA-256, and compares it with the stored key.
    The hash family the parameter set carried when the hash was written
    plays no part: the string [Params.Hash] returns parses to the resolved
    iteration count and key length, the salt and the key derived with the
    configured family, and [Verify] derives with SHA-256 all the same. *)
Theorem Verify_always_sha256 :
  (forall (password : list byte) (encodedHash : string) (iterations keyLen : Z)
          (salt decodedHash : list byte),
      pbkdf.parse encodedHash = Some (iterations, keyLen, salt, decodedHash) ->
      pbkdf.Verify password encodedHash =
      match pbkdf2.Key password salt iterations keyLen (Some sha256.New) with
      | None => Panic
      | Some dk => Ret (subtle.ConstantTimeCompare dk decodedHash =? 1) None
      end) /\
  (forall (p : pbkdf.Params) (password : list byte) (r r' : rand.Reader) (s : string),
      is_int (pbkdf.Iterations p) = true ->
      is_int (pbkdf.KeyLen p) = true ->
      pbkdf.Params_Hash p password r = (Ret s None, r') ->
      exists salt stored : list byte,
        pbkdf2.Key password salt (pbkdf.Iterations (pbkdf.applyDefaults p))
          (pbkdf.KeyLen (pbkdf.applyDefaults p)) (pbkdf.HashFunc (pbkdf.applyDefaults p)) =
        Some stored /\
        pbkdf.parse s =
        Some (pbkdf.Iterations (pbkdf.applyDefaults p), pbkdf.KeyLen (pbkdf.applyDefaults p),
              salt, stored) /\
        forall candidate : list byte,
          pbkdf.Verify candidate s =
          match pbkdf2.Key candidate salt (pbkdf.Iterations (pbkdf.applyDefaults p))
                  (pbkdf.KeyLen (pbkdf.applyDefaults p)) (Some sha256.New) with
          | None => Panic
          | Some dk => Ret (subtle.ConstantTimeCompare dk stored =? 1) None
          end).
Proof.
  split.
  - intros password encodedHash iterations keyLen salt decodedHash H.
    apply Verify_parsed. exact H.
  - intros p password r r' s Hi Hl H.
    apply Params_Hash_returns in H as (salt & dk & _ & HK & ->).
    destruct (applyDefaults_is_int p Hi Hl) as [Hi' Hl'].
    destruct (applyDefaults_nonzero p) as (Hi0 & Hl0 & _ & _).
    exists salt, dk. split; [exact HK|].
    split; [apply parse_format; assumption|].
    intros candidate. apply Verify_parsed. apply parse_format; assumption.
Qed.

Lemma Verify_always_sha256_witness :
  pbkdf.Verify examplePassword exampleHash =
  match pbkdf2.Key examplePassword exampleSalt 1 32 (Some sha256.New) with
  | None => Panic
  | Some dk => Ret (subtle.ConstantTimeCompare dk exampleKey =? 1) None
  end.
Proof.
  apply (proj1 Verify_always_sha256 examplePassword exampleHash 1 32 exampleSalt exampleKey).
  vm_compute. reflexivity.
Defined.

(** C2, as stated, fails: [overlongHash] is well formed (five fields, the
    tag, [i] and [l] positive base-10 numbers, salt and key in base64), and
    [Verify] gives no verdict on it; it panics, because [pbkdf2.Key] asks
    [make] for more than there can be. *)
Lemma Verify_wellformed_panics :
  pbkdf.parse overlongHash = Some (1, MaxInt, exampleSalt, exampleKey) /\
  pbkdf.Verify examplePassword overlongHash = Panic.
Proof. split; vm_compute; reflexivity. Qed.

(** C2, amended.  For an encoded hash that parses and a candidate password
    for which [pbkdf2.Key] returns a key, [Verify] returns [true] exactly
    when that key equals the stored key byte for byte; a key of another
    length or of other contents gives [false] and no error.  [pbkdf2.Key]
    does return a key, and [Verify] a verdict, for every parsed key length
    from 1 to [2 ^ 20] and every parsed iteration count below [MaxInt].
    [Verify] returns an error only for a string that does not parse. *)
Theorem Verify_verdict (password : list byte) (encodedHash : string) :
  (forall (iterations keyLen : Z) (salt decodedHash dk : list byte),
      pbkdf.parse encodedHash = Some (iterations, keyLen, salt, decodedHash) ->
      pbkdf2.Key password salt iterations keyLen (Some sha256.New) = Some dk ->
      (pbkdf.Verify password encodedHash = Ret true None <-> dk = decodedHash) /\
      (dk <> decodedHash -> pbkdf.Verify password encodedHash = Ret false None) /\
      (len dk <> len decodedHash -> pbkdf.Verify password encodedHash = Ret false None)) /\
  (forall (iterations keyLen : Z) (salt decodedHash : list byte),
      pbkdf.parse encodedHash = Some (iterations, keyLen, salt, decodedHash) ->
      0 < keyLen <= 2 ^ 20 -> iterations < MaxInt ->
      exists (dk : list byte) (b : bool),
        pbkdf2.Key password salt iterations keyLen (Some sha256.New) = Some dk /\
        pbkdf.Verify password encodedHash = Ret b None /\
        (b = true <-> dk = decodedHash)) /\
  (forall (b : bool) (e : error),
      pbkdf.Verify password encodedHash = Ret b (Some e) -> pbkdf.parse encodedHash = None).
Proof.
  split; [|split].
  - intros iterations keyLen salt decodedHash dk Hparse HK.
    rewrite (Verify_parsed _ _ _ _ _ _ Hparse), HK.
    pose proof (ConstantTimeCompare_eqb dk decodedHash) as Heqb.
    assert (Hne : dk <> decodedHash ->
                  Ret (subtle.ConstantTimeCompare dk decodedHash =? 1) None = Ret false None).
    { intros Hne. destruct (subtle.ConstantTimeCompare dk decodedHash =? 1); [|reflexivity].
      exfalso. apply Hne. apply Heqb. reflexivity. }
    split; [|split].
    + split.
      * intros H. apply Heqb. injection H as H. exact H.
      * intros H. apply Heqb in H. rewrite H. reflexivity.
    + exact Hne.
    + intros Hlen. apply Hne. intros ->. apply Hlen. reflexivity.
  - intros iterations keyLen salt decodedHash Hparse Hlen _.
    assert (HA : maxAlloc = 281474976710656) by reflexivity.
    assert (H20 : 2 ^ 20 = 1048576) by reflexivity.
    rewrite (Verify_parsed _ _ _ _ _ _ Hparse).
    destruct (Key_returns password salt iterations keyLen sha256.New) as (dk & ->).
    + reflexivity.
    + lia.
    + change (hash.Size sha256.New) with 32. lia.
    + exists dk, (subtle.ConstantTimeCompare dk decodedHash =? 1).
      split; [reflexivity|]. split; [reflexivity|]. apply ConstantTimeCompare_eqb.
  - intros b e H. apply Verify_error in H. tauto.
Qed.

Lemma Verify_verdict_witness :
  exists (dk : list byte) (b : bool),
    pbkdf2.Key examplePassword [] 1 1 (Some sha256.New) = Some dk /\
    pbkdf.Verify examplePassword tinyHash = Ret b None /\
    (b = true <-> dk = [x00]).
Proof.
  apply (proj1 (proj2 (Verify_verdict examplePassword tinyHash)) 1 1 [] [x00]).
  - vm_compute. reflexivity.
  - vm_compute. split; [reflexivity|discriminate].
  - reflexivity.
Defined.

(** C3. Whatever makes the parsing in [Verify] fail (a number of fields
    other than five, another algorithm tag, an [i] or [l] entry whose value
    is no number, a missing or zero [i] or [l], a salt or key field that is
    no base64), [Verify] returns [false] with the one error
    "invalid or corrupted hash"; it returns no other error. *)
Theorem Verify_malformed (password : list byte) (encodedHash : string) :
  let parts := strings.Split encodedHash "$" in
  let entries := strings.Split (nth 2 parts EmptyString) "," in
  let invalid := Ret false (Some (errors.New "invalid or corrupted hash")) in
  (pbkdf.parse encodedHash = None -> pbkdf.Verify password encodedHash = invalid) /\
  (len parts <> 5 -> pbkdf.Verify password encodedHash = invalid) /\
  (nth 1 parts EmptyString <> "pbkdf2-sha256" -> pbkdf.Verify password encodedHash = invalid) /\
  (forall e k v : string,
      In e entries -> strings.Split e "=" = [k; v] -> k = "i" \/ k = "l" ->
      strconv.Atoi v = None ->
      pbkdf.Verify password encodedHash = invalid) /\
  ((forall v : string, absent "=" v = true -> ~ In ("i=" ++ v)%string entries) ->
   pbkdf.Verify password encodedHash = invalid) /\
  ((forall v : string, absent "=" v = true -> ~ In ("l=" ++ v)%string entries) ->
   pbkdf.Verify password encodedHash = invalid) /\
  (forall iterations keyLen : Z,
      pbkdf.parseParams entries 0 0 = Some (iterations, keyLen) ->
      iterations = 0 \/ keyLen = 0 ->
      pbkdf.Verify password encodedHash = invalid) /\
  (base64.DecodeString (nth 3 parts EmptyString) = None ->
   pbkdf.Verify password encodedHash = invalid) /\
  (base64.DecodeString (nth 4 parts EmptyString) = None ->
   pbkdf.Verify password encodedHash = invalid) /\
  (forall (b : bool) (e : error),
      pbkdf.Verify password encodedHash = Ret b (Some e) ->
      Ret b (Some e) = invalid).
Proof.
  cbv zeta.
  assert (Hzero : forall iterations keyLen : Z,
             pbkdf.parseParams
               (strings.Split (nth 2 (strings.Split encodedHash "$") EmptyString) ",") 0 0 =
             Some (iterations, keyLen) ->
             iterations = 0 \/ keyLen = 0 ->
             pbkdf.parse encodedHash = None).
  { intros iterations keyLen Hp Hz. rewrite parse_fields. cbv zeta.
    destruct (negb (len (strings.Split encodedHash "$") =? 5)); [reflexivity|].
    destruct (negb (String.eqb _ _)); [reflexivity|]. rewrite Hp.
    destruct (Z.eqb_spec iterations 0); [reflexivity|].
    destruct (Z.eqb_spec keyLen 0); [reflexivity|]. lia. }
  repeat split.
  - apply Verify_invalid.
  - intros H. apply Verify_invalid. rewrite parse_fields. cbv zeta.
    destruct (Z.eqb_spec (len (strings.Split encodedHash "$")) 5); [contradiction|reflexivity].
  - intros H. apply Verify_invalid. rewrite parse_fields. cbv zeta.
    destruct (negb (len (strings.Split encodedHash "$") =? 5)); [reflexivity|].
    destruct (String.eqb_spec (nth 1 (strings.Split encodedHash "$") EmptyString)
                "pbkdf2-sha256"); [contradiction|reflexivity].
  - intros e k v Hin Hsplit Hk Hv.
    exact (Verify_bad_entry password encodedHash e k v Hin Hsplit Hk Hv).
  - intros Hno. apply Verify_invalid.
    destruct (pbkdf.parseParams
                (strings.Split (nth 2 (strings.Split encodedHash "$") EmptyString) ",") 0 0)
      as [[iterations keyLen]|] eqn:Hp.
    + apply (Hzero iterations keyLen eq_refl).
      destruct (parseParams_origin _ _ _ _ _ Hp) as [[Hi | (v & Hin & Hv & _)] _].
      * left. exact Hi.
      * exfalso. exact (Hno v Hv Hin).
    + rewrite parse_fields. cbv zeta.
      destruct (negb (len (strings.Split encodedHash "$") =? 5)); [reflexivity|].
      destruct (negb (String.eqb _ _)); [reflexivity|]. rewrite Hp. reflexivity.
  - intros Hno. apply Verify_invalid.
    destruct (pbkdf.parseParams
                (strings.Split (nth 2 (strings.Split encodedHash "$") EmptyString) ",") 0 0)
      as [[iterations keyLen]|] eqn:Hp.
    + apply (Hzero iterations keyLen eq_refl).
      destruct (parseParams_origin _ _ _ _ _ Hp) as [_ [Hl | (v & Hin & Hv & _)]].
      * right. exact Hl.
      * exfalso. exact (Hno v Hv Hin).
    + rewrite parse_fields. cbv zeta.
      destruct (negb (len (strings.Split encodedHash "$") =? 5)); [reflexivity|].
      destruct (negb (String.eqb _ _)); [reflexivity|]. rewrite Hp. reflexivity.
  - intros iterations keyLen Hp Hz. apply Verify_invalid. exact (Hzero _ _ Hp Hz).
  - intros H. apply Verify_invalid. rewrite parse_fields. cbv zeta.
    destruct (negb (len (strings.Split encodedHash "$") =? 5)); [reflexivity|].
    destruct (negb (String.eqb _ _)); [reflexivity|].
    destruct (pbkdf.parseParams _ 0 0) as [[iterations keyLen]|]; [|reflexivity].
    destruct ((iterations =? 0) || (keyLen =? 0)); [reflexivity|].
    rewrite H. reflexivity.
  - intros H. apply Verify_invalid. rewrite parse_fields. cbv zeta.
    destruct (negb (len (strings.Split encodedHash "$") =? 5)); [reflexivity|].
    destruct (negb (String.eqb _ _)); [reflexivity|].
    destruct (pbkdf.parseParams _ 0 0) as [[iterations keyLen]|]; [|reflexivity].
    destruct ((iterations =? 0) || (keyLen =? 0)); [reflexivity|].
    rewrite H.
    destruct (base64.DecodeString (nth 3 (strings.Split encodedHash "$") EmptyString));
      reflexivity.
  - intros b e H. apply Verify_error in H as (_ & -> & ->). reflexivity.
Qed.

Lemma Verify_malformed_witness :
  pbkdf.Verify examplePassword "invalid" =
    Ret false (Some (errors.New "invalid or corrupted hash")) /\
  pbkdf.Verify examplePassword "$pbkdf2-sha256$i=abc,l=32$AwoR$cQdz" =
    Ret false (Some (errors.New "invalid or corrupted hash")) /\
  pbkdf.Verify examplePassword "$pbkdf2-sha256$i=1,l=32$Aw=R$cQdz" =
    Ret false (Some (errors.New "invalid or corrupted hash")).
Proof.
  split; [|split].
  - apply (proj1 (proj2 (Verify_malformed examplePassword "invalid"))).
    vm_compute. discriminate.
  - apply (proj1 (proj2 (proj2 (proj2
             (Verify_malformed examplePassword "$pbkdf2-sha256$i=abc,l=32$AwoR$cQdz"))))
             "i=abc" "i" "abc").
    + vm_compute. left. reflexivity.
    + reflexivity.
    + left. reflexivity.
    + reflexivity.
  - apply (proj1 (proj2 (proj2 (proj2 (proj2 (proj2 (proj2 (proj2
             (Verify_malformed examplePassword "$pbkdf2-sha256$i=1,l=32$Aw=R$cQdz"))))))))).
    reflexivity.
Defined.

(** C4, as stated, fails: field 2 of [junkHash] holds a bare word, a pair
    with two [=] and an empty entry beside [i=1] and [l=32], and [Verify]
    does not reject it; it verifies the password. *)
Lemma junk_entries_accepted :
  pbkdf.Verify examplePassword junkHash = Ret true None /\
  pbkdf.Verify examplePassword junkHash <>
  Ret false (Some (errors.New "invalid or corrupted hash")).
Proof.
  assert (H : pbkdf.Verify examplePassword junkHash = Ret true None)
    by (vm_compute; reflexivity).
  split; [exact H|]. rewrite H. discriminate.
Qed.

(** C4, amended.  [Verify] reads field 2 as a comma-separated list and
    looks only at the entries that split at [=] into exactly a key and a
    value with the key [i] or [l]; every other entry is skipped.  It
    accepts field 2 only when an [i=<v>] and an [l=<v>] entry are present
    whose values [Atoi] reads as the iteration count and the key length,
    both nonzero, and when the value of every [i] and [l] entry is a
    base-10 integer; an [i] or [l] entry whose value is no base-10 integer
    is rejected with the error "invalid or corrupted hash". *)
Theorem field2_entries (encodedHash : string) :
  let entries :=
    strings.Split (nth 2 (strings.Split encodedHash "$") EmptyString) "," in
  (forall (iterations keyLen : Z) (salt decodedHash : list byte),
      pbkdf.parse encodedHash = Some (iterations, keyLen, salt, decodedHash) ->
      iterations <> 0 /\ keyLen <> 0 /\
      (exists v : string,
          In ("i=" ++ v)%string entries /\ absent "=" v = true /\
          strconv.Atoi v = Some iterations) /\
      (exists v : string,
          In ("l=" ++ v)%string entries /\ absent "=" v = true /\
          strconv.Atoi v = Some keyLen) /\
      (forall k v : string,
          In (k ++ "=" ++ v)%string entries ->
          absent "=" k = true -> absent "=" v = true -> k = "i" \/ k = "l" ->
          strconv.Atoi v <> None)) /\
  (forall (es1 es2 : list string) (e : string) (a b : Z),
      (forall k v : string, strings.Split e "=" = [k; v] -> k <> "i" /\ k <> "l") ->
      pbkdf.parseParams (es1 ++ e :: es2) a b = pbkdf.parseParams (es1 ++ es2) a b) /\
  (forall (password : list byte) (k v : string),
      In (k ++ "=" ++ v)%string entries ->
      absent "=" k = true -> absent "=" v = true -> k = "i" \/ k = "l" ->
      strconv.Atoi v = None ->
      pbkdf.Verify password encodedHash =
      Ret false (Some (errors.New "invalid or corrupted hash"))).
Proof.
  cbv zeta. split; [|split].
  - intros iterations keyLen salt decodedHash Hparse.
    rewrite parse_fields in Hparse. cbv zeta in Hparse.
    destruct (negb (len (strings.Split encodedHash "$") =? 5)); [discriminate|].
    destruct (negb (String.eqb _ _)); [discriminate|].
    destruct (pbkdf.parseParams _ 0 0) as [[i l]|] eqn:Hp; [|discriminate].
    destruct (Z.eqb_spec i 0) as [|Hi0]; [discriminate|].
    destruct (Z.eqb_spec l 0) as [|Hl0]; [discriminate|]. cbn [orb] in Hparse.
    destruct (base64.DecodeString _) as [salt'|]; [|discriminate].
    destruct (base64.DecodeString _) as [stored'|]; [|discriminate].
    injection Hparse as <- <- _ _.
    destruct (parseParams_origin _ _ _ _ _ Hp) as [Hi Hl].
    split; [exact Hi0|]. split; [exact Hl0|].
    split; [destruct Hi as [Hi|Hi]; [contradiction|exact Hi]|].
    split; [destruct Hl as [Hl|Hl]; [contradiction|exact Hl]|].
    intros k v Hin Hk Hv Hkey Hbad.
    assert (Hsplit : strings.Split (k ++ "=" ++ v)%string "=" = [k; v])
      by (apply Split_pair; auto).
    rewrite (parseParams_bad _ 0 0 _ k v Hin Hsplit Hkey Hbad) in Hp. discriminate.
  - intros es1 es2 e a b He. apply parseParams_skip. exact He.
  - intros password k v Hin Hk Hv Hkey Hbad.
    assert (Hsplit : strings.Split (k ++ "=" ++ v)%string "=" = [k; v])
      by (apply Split_pair; auto).
    exact (Verify_bad_entry password encodedHash _ k v Hin Hsplit Hkey Hbad).
Qed.

Lemma field2_entries_witness :
  (exists v : string,
      In ("i=" ++ v)%string (strings.Split "junk,i=1,x=y=z,l=32," ",") /\
      absent "=" v = true /\ strconv.Atoi v = Some 1) /\
  pbkdf.parseParams (["junk"] ++ "x=y=z" :: ["i=1"; "l=32"]) 0 0 =
  pbkdf.parseParams (["junk"] ++ ["i=1"; "l=32"]) 0 0.
Proof.
  split.
  - destruct (proj1 (field2_entries junkHash) 1 32 exampleSalt exampleKey)
      as (_ & _ & Hi & _).
    + vm_compute. reflexivity.
    + exact Hi.
  - apply (proj1 (proj2 (field2_entries junkHash))).
    intros k v H. vm_compute in H. discriminate H.
Defined.

(* ================================================================= *)
(** * Further properties of the package *)

(** ** The length of a derived key *)

Lemma bigEndian_length (n : nat) (v : Z) : List.length (sha256.bigEndian n v) = n.
Proof. induction n as [|n IH]; simpl; congruence. Qed.

Lemma Sum256_length (data : list byte) : List.length (sha256.Sum256 data) = 32%nat.
Proof.
  unfold sha256.Sum256. cbv zeta.
  destruct (sha256.blocks _ sha256.init _) as [[[[[[[h0 h1] h2] h3] h4] h5] h6] h7].
  rewrite !length_app, !bigEndian_length. reflexivity.
Qed.

(** A hash whose [Sum] returns [Size] bytes, as [hash.Hash] asks. *)
Lemma hmac_Sum_length (h : hash.Hash) (n : nat) (key msg : list byte) :
  (forall m, List.length (hash.Sum h m) = n) ->
  List.length (hmac.Sum h key msg) = n.
Proof. intros Hh. unfold hmac.Sum. cbv zeta. apply Hh. Qed.

Lemma xorInto_length (T U : list byte) :
  List.length (pbkdf2.xorInto T U) = List.length T.
Proof.
  revert U. induction T as [|t T IH]; intros [|u U]; simpl; try reflexivity.
  rewrite IH. reflexivity.
Qed.

Lemma T_length (h : hash.Hash) (n : nat) (password salt : list byte) (iter block : Z) :
  (forall m, List.length (hash.Sum h m) = n) ->
  List.length (pbkdf2.T h password salt iter block) = n.
Proof.
  intros Hh. unfold pbkdf2.T. cbv zeta.
  set (U1 := hmac.Sum h password _).
  assert (H1 : List.length (snd (U1, U1)) = n) by (apply hmac_Sum_length; exact Hh).
  revert H1. generalize (U1, U1). intros UT HUT.
  destruct (iter - 1) as [|p|p]; cbn [Z.iter]; try exact HUT.
  apply Pos.iter_invariant; [|exact HUT].
  intros [U T'] HT. unfold pbkdf2.step. cbn [fst snd] in *.
  rewrite xorInto_length. exact HT.
Qed.

Lemma flat_map_length_const (A B : Type) (f : A -> list B) (n : nat) (l : list A) :
  (forall a, List.length (f a) = n) ->
  List.length (flat_map f l) = (List.length l * n)%nat.
Proof.
  intros Hf. induction l as [|a l IH]; [reflexivity|].
  cbn [flat_map List.length]. rewrite length_app, Hf, IH. lia.
Qed.

(** The blocks [T_1 || T_2 || ...] that [pbkdf2.Key] cuts the key from. *)
Lemma Key_sha256 (password salt : list byte) (iter keyLen : Z) :
  0 <= keyLen <= maxAlloc ->
  pbkdf2.Key password salt iter keyLen (Some sha256.New) =
  Some (firstn (Z.to_nat keyLen)
          (flat_map (fun block => pbkdf2.T sha256.New password salt iter (Z.of_nat block))
             (seq 1 (Z.to_nat ((keyLen + 31) / 32))))).
Proof.
  intros Hlen. assert (HA : maxAlloc = 281474976710656) by reflexivity.
  unfold pbkdf2.Key. cbv zeta. change (hash.Size sha256.New) with 32.
  change (32 =? 0) with false. cbv iota.
  replace (keyLen + 32 - 1) with (keyLen + 31) by lia.
  rewrite (wrap_small (keyLen + 31)) by (apply is_int_range; lia).
  rewrite Z.quot_div_nonneg by lia.
  pose proof (Z.div_mod (keyLen + 31) 32 ltac:(lia)) as Hdm.
  pose proof (Z.mod_pos_bound (keyLen + 31) 32 ltac:(lia)) as Hm.
  assert (Hcap : keyLen <= (keyLen + 31) / 32 * 32 <= maxAlloc).
  { split; [lia|].
    assert (Hq : (keyLen + 31) / 32 <= 8796093022208).
    { apply Z.lt_succ_r. apply Z.div_lt_upper_bound; lia. }
    lia. }
  rewrite (wrap_small ((keyLen + 31) / 32 * 32)) by (apply is_int_range; lia).
  destruct (Z.ltb_spec ((keyLen + 31) / 32 * 32) 0) as [E|_]; [lia|].
  destruct (Z.ltb_spec maxAlloc ((keyLen + 31) / 32 * 32)) as [E|_]; [lia|].
  destruct (Z.ltb_spec keyLen 0) as [E|_]; [lia|].
  destruct (Z.ltb_spec ((keyLen + 31) / 32 * 32) keyLen) as [E|_]; [lia|].
  reflexivity.
Qed.

Lemma Key_sha256_length (password salt dk : list byte) (iter keyLen : Z) :
  pbkdf2.Key password salt iter keyLen (Some sha256.New) = Some dk ->
  len dk = keyLen.
Proof.
  intros H.
  destruct (Z.ltb_spec keyLen 0) as [Hneg|Hpos].
  { rewrite Key_negative in H by exact Hneg. discriminate. }
  unfold pbkdf2.Key in H. cbv zeta in H. change (hash.Size sha256.New) with 32 in H.
  change (32 =? 0) with false in H. cbv iota in H.
  destruct (wrap (Z.quot (wrap (keyLen + 32 - 1)) 32 * 32) <? 0) eqn:Hcap; [discriminate|].
  destruct (maxAlloc <? wrap (Z.quot (wrap (keyLen + 32 - 1)) 32 * 32)); [discriminate|].
  cbn [orb] in H.
  destruct (Z.ltb_spec keyLen 0) as [E|_]; [lia|]. cbn [orb] in H.
  set (n := Z.quot (wrap (keyLen + 32 - 1)) 32) in *.
  destruct (Z.ltb_spec (wrap (n * 32)) keyLen) as [E|Hle]; [discriminate|].
  injection H as <-. unfold len. rewrite length_firstn.
  rewrite (flat_map_length_const _ _ _ 32)
    by (intros a; apply T_length; intros m; apply Sum256_length).
  rewrite length_seq. apply Z.ltb_ge in Hcap.
  assert (Hw : wrap (n * 32) <= n * 32).
  { unfold wrap, intSize. change (2 ^ (64 - 1)) with 9223372036854775808.
    change (2 ^ 64) with 18446744073709551616.
    destruct (Z.le_gt_cases 0 n) as [Hn|Hn].
    - pose proof (Z.mod_le (n * 32 + 9223372036854775808) 18446744073709551616
                    ltac:(lia) ltac:(lia)). lia.
    - exfalso. revert Hcap. unfold wrap, intSize.
      change (2 ^ (64 - 1)) with 9223372036854775808.
      change (2 ^ 64) with 18446744073709551616. intros Hcap.
      assert (Hnb : - 9223372036854775808 <= wrap (keyLen + 32 - 1) <= 9223372036854775807).
      { unfold wrap, intSize. change (2 ^ (64 - 1)) with 9223372036854775808.
        change (2 ^ 64) with 18446744073709551616.
        pose proof (Z.mod_pos_bound (keyLen + 32 - 1 + 9223372036854775808)
                      18446744073709551616 ltac:(lia)). lia. }
      pose proof (Z.quot_rem' (wrap (keyLen + 32 - 1)) 32) as Hqr. fold n in Hqr.
      assert (Hr : -32 < Z.rem (wrap (keyLen + 32 - 1)) 32 <= 0).
      { destruct (Z.le_gt_cases 0 (wrap (keyLen + 32 - 1))) as [Hp|Hn'].
        - pose proof (Z.quot_pos (wrap (keyLen + 32 - 1)) 32 Hp ltac:(lia)). fold n in H. lia.
        - pose proof (Z.rem_bound_pos (- wrap (keyLen + 32 - 1)) 32 ltac:(lia) ltac:(lia)) as Hb.
          rewrite Z.rem_opp_l in Hb by lia. lia. }
      rewrite Z.mod_small in Hcap by lia. lia. }
  lia.
Qed.

(** Beyond [MaxInt - 31] the sum [keyLen + hashLen - 1] wraps around, the
    capacity handed to [make] is negative, and [pbkdf2.Key] panics. *)
Lemma Key_sha256_overflow (password salt : list byte) (iter keyLen : Z) :
  MaxInt - 31 < keyLen -> is_int keyLen = true ->
  pbkdf2.Key password salt iter keyLen (Some sha256.New) = None.
Proof.
  intros Hbig Hint. apply is_int_range in Hint.
  assert (HM : MaxInt = 9223372036854775807) by reflexivity.
  unfold pbkdf2.Key. cbv zeta. change (hash.Size sha256.New) with 32.
  change (32 =? 0) with false. cbv iota.
  assert (Hw : wrap (keyLen + 32 - 1) = keyLen + 31 - 18446744073709551616).
  { unfold wrap, intSize. change (2 ^ (64 - 1)) with 9223372036854775808.
    change (2 ^ 64) with 18446744073709551616.
    replace (keyLen + 32 - 1 + 9223372036854775808)
      with (keyLen + 31 - 9223372036854775808 + 1 * 18446744073709551616) by lia.
    rewrite Z.mod_add by lia. rewrite Z.mod_small by lia. lia. }
  rewrite Hw. set (w := keyLen + 31 - 18446744073709551616).
  pose proof (Z.quot_rem' w 32) as Hqr.
  pose proof (Z.rem_bound_pos (- w) 32 ltac:(unfold w; lia) ltac:(lia)) as Hb.
  rewrite Z.rem_opp_l in Hb by lia.
  rewrite (wrap_small (Z.quot w 32 * 32)) by (apply is_int_range; unfold w in *; lia).
  destruct (Z.ltb_spec (Z.quot w 32 * 32) 0) as [_|E]; [reflexivity|].
  unfold w in *. lia.
Qed.

(** Between the allocator's limit and [MaxInt - 31] nothing wraps around,
    the capacity handed to [make] is above the limit, and [pbkdf2.Key]
    panics. *)
Lemma Key_sha256_oversize (password salt : list byte) (iter keyLen : Z) :
  maxAlloc < keyLen <= MaxInt - 31 ->
  pbkdf2.Key password salt iter keyLen (Some sha256.New) = None.
Proof.
  intros Hbig. assert (HA : maxAlloc = 281474976710656) by reflexivity.
  assert (HM : MaxInt = 9223372036854775807) by reflexivity.
  unfold pbkdf2.Key. cbv zeta. change (hash.Size sha256.New) with 32.
  change (32 =? 0) with false. cbv iota.
  replace (keyLen + 32 - 1) with (keyLen + 31) by lia.
  rewrite (wrap_small (keyLen + 31)) by (apply is_int_range; lia).
  rewrite Z.quot_div_nonneg by lia.
  pose proof (Z.div_mod (keyLen + 31) 32 ltac:(lia)) as Hdm.
  pose proof (Z.mod_pos_bound (keyLen + 31) 32 ltac:(lia)) as Hm.
  rewrite (wrap_small ((keyLen + 31) / 32 * 32)) by (apply is_int_range; lia).
  destruct (Z.ltb_spec maxAlloc ((keyLen + 31) / 32 * 32)) as [_|E]; [|lia].
  rewrite orb_true_r. reflexivity.
Qed.

(** When [pbkdf2.Key] with SHA-256 panics. *)
Lemma Key_sha256_panics (password salt : list byte) (iter keyLen : Z) :
  is_int keyLen = true ->
  (pbkdf2.Key password salt iter keyLen (Some sha256.New) = None <->
   keyLen < 0 \/ maxAlloc < keyLen).
Proof.
  intros Hint. split.
  - intros H. destruct (Z.ltb_spec keyLen 0) as [?|Hpos]; [left; assumption|].
    destruct (Z.ltb_spec maxAlloc keyLen) as [?|Hsmall]; [right; assumption|].
    rewrite Key_sha256 in H by lia. discriminate.
  - intros [H|H]; [apply Key_negative; exact H|].
    destruct (Z.ltb_spec (MaxInt - 31) keyLen) as [Hover|Hfit].
    + apply Key_sha256_overflow; assumption.
    + apply Key_sha256_oversize. lia.
Qed.

(** With an iteration count of 1 or less the inner loop of [pbkdf2.Key]
    does not run. *)
Lemma Key_few_iterations (password salt : list byte) (iter keyLen : Z)
      (h : option hash.Hash) :
  iter <= 1 ->
  pbkdf2.Key password salt iter keyLen h = pbkdf2.Key password salt 1 keyLen h.
Proof.
  intros Hiter. unfold pbkdf2.Key. destruct h as [h|]; [|reflexivity]. cbv zeta.
  assert (HT : forall block,
             pbkdf2.T h password salt iter block = pbkdf2.T h password salt 1 block).
  { intros block. unfold pbkdf2.T. cbv zeta.
    destruct (iter - 1) as [|p|p] eqn:E; try reflexivity. lia. }
  assert (HF : forall l,
             flat_map (fun block => pbkdf2.T h password salt iter (Z.of_nat block)) l =
             flat_map (fun block => pbkdf2.T h password salt 1 (Z.of_nat block)) l).
  { intros l. induction l as [|a l IH]; [reflexivity|].
    cbn [flat_map]. rewrite HT, IH. reflexivity. }
  rewrite HF. reflexivity.
Qed.

(** ** More on the parser *)

Lemma Atoi_is_int (s : string) (n : Z) : strconv.Atoi s = Some n -> is_int n = true.
Proof.
  unfold strconv.Atoi. destruct s as [|c rest]; [discriminate|]. cbv zeta.
  destruct (if Ascii.eqb c "-" || Ascii.eqb c "+" then rest else String c rest);
    [discriminate|].
  destruct (strconv.digits _ 0) as [m|]; [|discriminate].
  destruct (is_int (if Ascii.eqb c "-" then - m else m)) eqn:E; [|discriminate].
  intros H. injection H as <-. exact E.
Qed.

(** The loop over field 2 runs through a list entry by entry. *)
Lemma parseParams_app (es1 es2 : list string) (a b : Z) :
  pbkdf.parseParams (es1 ++ es2) a b =
  match pbkdf.parseParams es1 a b with
  | Some (i, l) => pbkdf.parseParams es2 i l
  | None => None
  end.
Proof.
  revert a b. induction es1 as [|e es1 IH]; intros a b; [reflexivity|].
  cbn [app]. rewrite !parseParams_cons.
  destruct (strings.Split e "=") as [|k [|v [|x t]]]; try apply IH.
  destruct (String.eqb k "i"); [destruct (strconv.Atoi v); [apply IH|reflexivity]|].
  destruct (String.eqb k "l"); [destruct (strconv.Atoi v); [apply IH|reflexivity]|].
  apply IH.
Qed.

(** The numbers of a parsed hash are nonzero values of an [int]. *)
Lemma parse_is_int (encodedHash : string) (iterations keyLen : Z)
      (salt decodedHash : list byte) :
  pbkdf.parse encodedHash = Some (iterations, keyLen, salt, decodedHash) ->
  is_int iterations = true /\ is_int keyLen = true /\ iterations <> 0 /\ keyLen <> 0.
Proof.
  intros H. rewrite parse_fields in H. cbv zeta in H.
  destruct (negb (len (strings.Split encodedHash "$") =? 5)); [discriminate|].
  destruct (negb (String.eqb _ _)); [discriminate|].
  destruct (pbkdf.parseParams _ 0 0) as [[i l]|] eqn:Hp; [|discriminate].
  destruct (Z.eqb_spec i 0) as [|Hi0]; [discriminate|].
  destruct (Z.eqb_spec l 0) as [|Hl0]; [discriminate|]. cbn [orb] in H.
  destruct (base64.DecodeString _) as [salt'|]; [|discriminate].
  destruct (base64.DecodeString _) as [stored'|]; [|discriminate].
  injection H as <- <- _ _.
  destruct (parseParams_origin _ _ _ _ _ Hp) as [[Hi|(vi & _ & _ & Hi)] [Hl|(vl & _ & _ & Hl)]];
    try contradiction.
  repeat split; try assumption; eapply Atoi_is_int; eassumption.
Qed.

(** ** What [Params.Hash] returns *)

Lemma applyDefaults_sha256 (p : pbkdf.Params) :
  pbkdf.HashFunc p = None \/ pbkdf.HashFunc p = Some sha256.New ->
  pbkdf.HashFunc (pbkdf.applyDefaults p) = Some sha256.New.
Proof.
  intros Hh. unfold pbkdf.applyDefaults. cbn [pbkdf.HashFunc].
  destruct Hh as [-> | ->]; reflexivity.
Qed.

(** An error that [Params.Hash] returns is the one of [GenerateSalt]. *)
Lemma Params_Hash_error (p : pbkdf.Params) (password : list byte) (r r' : rand.Reader)
      (s : string) (e : error) :
  pbkdf.Params_Hash p password r = (Ret s (Some e), r') ->
  pbkdf.SaltLen p < 0 /\ s = EmptyString /\
  e = errors.New "salt length must be positive" /\ r' = r.
Proof.
  intros H. unfold pbkdf.Params_Hash in H. cbv zeta in H.
  pose proof (applyDefaults_SaltLen p) as ES.
  destruct (Z.leb_spec (pbkdf.SaltLen (pbkdf.applyDefaults p)) 0) as [Hle|Hpos].
  - rewrite GenerateSalt_nonpositive in H by exact Hle. injection H as <- <- <-.
    split; [|auto]. rewrite ES in Hle. destruct (Z.eqb_spec (pbkdf.SaltLen p) 0); lia.
  - exfalso.
    destruct (Z.ltb_spec maxAlloc (pbkdf.SaltLen (pbkdf.applyDefaults p))) as [Hbig|Hsmall].
    + rewrite GenerateSalt_huge in H by exact Hbig. discriminate.
    + rewrite GenerateSalt_positive in H by lia.
      destruct (rand.failure r); [discriminate|].
      destruct (pbkdf2.Key _ _ _ _ _); discriminate.
Qed.

(** X1. How a call of [Params.Hash] ends.  It returns an error if and only
    if the salt length is negative; the error is then "salt length must be
    positive", the string is empty and the random source is left as it was.
    A salt length above the allocator's limit makes it panic, and a failing
    random source ends the process.  With SHA-256 (given or by default), a
    salt length of at most [2 ^ 20] and a delivering random source, a key
    length that is negative or above the allocator's limit makes it panic
    inside [pbkdf2.Key], and for a key length from 0 to [2 ^ 20] and an
    iteration count below [MaxInt] it returns an encoded hash and no
    error. *)
Theorem Params_Hash_outcomes (p : pbkdf.Params) (password : list byte) (r : rand.Reader) :
  (pbkdf.SaltLen p < 0 <->
   exists (s : string) (e : error) (r' : rand.Reader),
     pbkdf.Params_Hash p password r = (Ret s (Some e), r')) /\
  (forall (s : string) (e : error) (r' : rand.Reader),
      pbkdf.Params_Hash p password r = (Ret s (Some e), r') ->
      s = EmptyString /\ e = errors.New "salt length must be positive" /\ r' = r) /\
  (maxAlloc < pbkdf.SaltLen p -> pbkdf.Params_Hash p password r = (Panic, r)) /\
  (0 <= pbkdf.SaltLen p <= maxAlloc -> rand.failure r <> None ->
   pbkdf.Params_Hash p password r = (Crash, r)) /\
  (pbkdf.HashFunc p = None \/ pbkdf.HashFunc p = Some sha256.New ->
   is_int (pbkdf.KeyLen p) = true ->
   0 <= pbkdf.SaltLen p <= 2 ^ 20 -> rand.failure r = None ->
   pbkdf.KeyLen p < 0 \/ maxAlloc < pbkdf.KeyLen p ->
   fst (pbkdf.Params_Hash p password r) = Panic) /\
  (pbkdf.HashFunc p = None \/ pbkdf.HashFunc p = Some sha256.New ->
   0 <= pbkdf.SaltLen p <= 2 ^ 20 -> rand.failure r = None ->
   0 <= pbkdf.KeyLen p <= 2 ^ 20 -> pbkdf.Iterations p < MaxInt ->
   exists (s : string) (r' : rand.Reader),
     pbkdf.Params_Hash p password r = (Ret s None, r')).
Proof.
  assert (HA : maxAlloc = 281474976710656) by reflexivity.
  assert (H20 : 2 ^ 20 = 1048576) by reflexivity.
  assert (ES : pbkdf.SaltLen (pbkdf.applyDefaults p) =
               if pbkdf.SaltLen p =? 0 then 16 else pbkdf.SaltLen p) by reflexivity.
  assert (EK : pbkdf.KeyLen (pbkdf.applyDefaults p) =
               if pbkdf.KeyLen p =? 0 then 32 else pbkdf.KeyLen p) by reflexivity.
  split; [|split; [|split; [|split; [|split]]]].
  - split.
    + intros Hneg. exists EmptyString, (errors.New "salt length must be positive"), r.
      unfold pbkdf.Params_Hash. cbv zeta.
      rewrite GenerateSalt_nonpositive; [reflexivity|].
      rewrite ES. destruct (Z.eqb_spec (pbkdf.SaltLen p) 0); lia.
    + intros (s & e & r' & H). apply Params_Hash_error in H. tauto.
  - intros s e r' H. apply Params_Hash_error in H. tauto.
  - intros Hbig. unfold pbkdf.Params_Hash. cbv zeta.
    rewrite GenerateSalt_huge; [reflexivity|].
    rewrite ES. destruct (Z.eqb_spec (pbkdf.SaltLen p) 0); lia.
  - intros Hsalt Hbad. unfold pbkdf.Params_Hash. cbv zeta.
    rewrite GenerateSalt_positive
      by (rewrite ES; destruct (Z.eqb_spec (pbkdf.SaltLen p) 0); lia).
    destruct (rand.failure r); [reflexivity|contradiction].
  - intros Hh Hint Hsalt Hok Hkey. unfold pbkdf.Params_Hash. cbv zeta.
    rewrite GenerateSalt_positive, Hok
      by (rewrite ES; destruct (Z.eqb_spec (pbkdf.SaltLen p) 0); lia).
    rewrite (applyDefaults_sha256 p Hh).
    assert (E : pbkdf.KeyLen (pbkdf.applyDefaults p) = pbkdf.KeyLen p).
    { rewrite EK. destruct (Z.eqb_spec (pbkdf.KeyLen p) 0); [lia|reflexivity]. }
    rewrite E.
    rewrite (proj2 (Key_sha256_panics password _ _ (pbkdf.KeyLen p) Hint) Hkey).
    reflexivity.
  - intros Hh Hsalt Hok Hkey _.
    destruct (Params_Hash_working p password r Hok) as (salt & dk & r' & _ & HH).
    + rewrite ES. destruct (Z.eqb_spec (pbkdf.SaltLen p) 0); lia.
    + rewrite EK. destruct (Z.eqb_spec (pbkdf.KeyLen p) 0); lia.
    + exact (applyDefaults_sha256 p Hh).
    + eexists _, r'. exact HH.
Qed.

Lemma Params_Hash_outcomes_witness :
  (exists (s : string) (r' : rand.Reader),
      pbkdf.Params_Hash exampleParams examplePassword workingReader = (Ret s None, r')) /\
  pbkdf.Params_Hash exampleParams examplePassword brokenReader = (Crash, brokenReader).
Proof.
  split.
  - apply (proj2 (proj2 (proj2 (proj2 (proj2
             (Params_Hash_outcomes exampleParams examplePassword workingReader)))))).
    + left. reflexivity.
    + vm_compute. split; discriminate.
    + reflexivity.
    + vm_compute. split; discriminate.
    + reflexivity.
  - apply (proj1 (proj2 (proj2 (proj2
             (Params_Hash_outcomes exampleParams examplePassword brokenReader))))).
    + vm_compute. split; discriminate.
    + discriminate.
Defined.

Lemma Params_Hash_lengths (p : pbkdf.Params) (password : list byte)
      (r r' : rand.Reader) (s : string) :
  pbkdf.HashFunc p = None \/ pbkdf.HashFunc p = Some sha256.New ->
  pbkdf.Params_Hash p password r = (Ret s None, r') ->
  exists salt dk : list byte,
    base64.DecodeString (nth 3 (strings.Split s "$") EmptyString) = Some salt /\
    base64.DecodeString (nth 4 (strings.Split s "$") EmptyString) = Some dk /\
    len salt = pbkdf.SaltLen (pbkdf.applyDefaults p) /\
    len dk = pbkdf.KeyLen (pbkdf.applyDefaults p) /\
    0 < pbkdf.SaltLen (pbkdf.applyDefaults p) /\
    0 < pbkdf.KeyLen (pbkdf.applyDefaults p).
Proof.
  intros Hh H. apply Params_Hash_returns in H as (salt & dk & Hsalt & HK & ->).
  rewrite (applyDefaults_sha256 p Hh) in HK.
  apply GenerateSalt_returns in Hsalt as (Hpos & _ & -> & _).
  pose proof (Key_sha256_length _ _ _ _ _ HK) as Hdk.
  exists (map (rand.entropy r)
            (seq (rand.consumed r) (Z.to_nat (pbkdf.SaltLen (pbkdf.applyDefaults p))))), dk.
  rewrite format_Split. cbn [nth].
  split; [apply DecodeString_EncodeToString|].
  split; [apply DecodeString_EncodeToString|].
  split; [unfold len; rewrite length_map, length_seq; lia|].
  split; [exact Hdk|]. split; [exact (proj1 Hpos)|].
  destruct (applyDefaults_nonzero p) as (_ & Hk0 & _ & _).
  unfold len in Hdk. lia.
Qed.

(** X2. In every encoded hash that [Params.Hash] returns with SHA-256, the
    salt field decodes to exactly the resolved salt length in bytes and the
    key field to exactly the resolved key length, both positive. *)
Theorem Hash_stores_lengths (p : pbkdf.Params) (password : list byte)
      (r r' : rand.Reader) (s : string) :
  pbkdf.HashFunc p = None \/ pbkdf.HashFunc p = Some sha256.New ->
  pbkdf.Params_Hash p password r = (Ret s None, r') ->
  exists salt dk : list byte,
    base64.DecodeString (nth 3 (strings.Split s "$") EmptyString) = Some salt /\
    base64.DecodeString (nth 4 (strings.Split s "$") EmptyString) = Some dk /\
    len salt = pbkdf.SaltLen (pbkdf.applyDefaults p) /\
    len dk = pbkdf.KeyLen (pbkdf.applyDefaults p) /\
    0 < pbkdf.SaltLen (pbkdf.applyDefaults p) /\
    0 < pbkdf.KeyLen (pbkdf.applyDefaults p).
Proof. exact (Params_Hash_lengths p password r r' s). Qed.

Lemma Hash_stores_lengths_witness :
  exists salt dk : list byte,
    base64.DecodeString (nth 3 (strings.Split exampleHash "$") EmptyString) = Some salt /\
    base64.DecodeString (nth 4 (strings.Split exampleHash "$") EmptyString) = Some dk /\
    len salt = 16 /\ len dk = 32.
Proof.
  destruct (Hash_stores_lengths exampleParams examplePassword workingReader
              (snd (pbkdf.Params_Hash exampleParams examplePassword workingReader))
              exampleHash) as (salt & dk & Hs & Hd & Hls & Hld & _).
  - left. reflexivity.
  - vm_compute. reflexivity.
  - exists salt, dk. auto.
Defined.

Lemma length_append (a b : string) :
  String.length (String.append a b) = (String.length a + String.length b)%nat.
Proof. induction a as [|c a IH]; simpl; congruence. Qed.

(** X3. Every string [Hash] returns (default parameters) has exactly 95
    characters: 29 for [$pbkdf2-sha256$i=120000,l=32$], 22 for the salt,
    one [$] and 43 for the key; and [Hash] returns such a string whenever
    the random source delivers. *)
Theorem Hash_length (password : list byte) (r : rand.Reader) :
  (forall (s : string) (r' : rand.Reader),
      pbkdf.Hash password r = (Ret s None, r') -> String.length s = 95%nat) /\
  (rand.failure r = None ->
   exists (s : string) (r' : rand.Reader),
     pbkdf.Hash password r = (Ret s None, r') /\ String.length s = 95%nat).
Proof.
  assert (Hall : forall (s : string) (r' : rand.Reader),
             pbkdf.Hash password r = (Ret s None, r') -> String.length s = 95%nat).
  { intros s r' H. unfold pbkdf.Hash in H.
    pose proof (Params_Hash_lengths pbkdf.DefaultParams password r r' s
                  (or_intror eq_refl) H) as (salt & dk & Hs & Hd & Hls & Hld & _).
    apply Params_Hash_returns in H as (salt' & dk' & _ & _ & ->).
    rewrite format_Split in Hs, Hd. cbn [nth] in Hs, Hd.
    rewrite DecodeString_EncodeToString in Hs, Hd.
    injection Hs as ->. injection Hd as ->.
    unfold pbkdf.format. rewrite !length_append, !EncodeToString_length.
    unfold len in Hls, Hld.
    change (pbkdf.SaltLen (pbkdf.applyDefaults pbkdf.DefaultParams)) with 16 in Hls.
    change (pbkdf.KeyLen (pbkdf.applyDefaults pbkdf.DefaultParams)) with 32 in Hld.
    replace (List.length salt) with 16%nat by lia.
    replace (List.length dk) with 32%nat by lia.
    reflexivity. }
  split; [exact Hall|]. intros Hok.
  destruct (Params_Hash_working pbkdf.DefaultParams password r Hok)
    as (salt & dk & r' & _ & HH).
  - vm_compute. split; [reflexivity|discriminate].
  - vm_compute. split; [reflexivity|discriminate].
  - reflexivity.
  - eexists _, r'. split; [exact HH|]. exact (Hall _ _ HH).
Qed.

Lemma Hash_length_witness :
  exists (s : string) (r' : rand.Reader),
    pbkdf.Hash examplePassword workingReader = (Ret s None, r') /\
    String.length s = 95%nat.
Proof.
  apply (proj2 (Hash_length examplePassword workingReader)). reflexivity.
Defined.

(** ** What [Verify] does with a parsed hash *)

(** X4. [Verify] panics on every encoded hash that parses with a key length
    that is negative or above the allocator's limit of [2 ^ 48] bytes, for
    every password alike: [pbkdf2.Key] panics before it derives anything. *)
Theorem Verify_panics (password : list byte) (encodedHash : string)
      (iterations keyLen : Z) (salt decodedHash : list byte) :
  pbkdf.parse encodedHash = Some (iterations, keyLen, salt, decodedHash) ->
  keyLen < 0 \/ maxAlloc < keyLen ->
  pbkdf.Verify password encodedHash = Panic.
Proof.
  intros Hparse Hbad. rewrite (Verify_parsed _ _ _ _ _ _ Hparse).
  destruct (parse_is_int _ _ _ _ _ Hparse) as (_ & Hl & _).
  rewrite (proj2 (Key_sha256_panics password salt iterations keyLen Hl) Hbad).
  reflexivity.
Qed.

Lemma Verify_panics_witness :
  pbkdf.Verify examplePassword overlongHash = Panic /\
  pbkdf.Verify [] "$pbkdf2-sha256$i=1,l=-1$$" = Panic.
Proof.
  split.
  - apply (Verify_panics examplePassword overlongHash 1 MaxInt exampleSalt exampleKey).
    + vm_compute. reflexivity.
    + right. reflexivity.
  - apply (Verify_panics [] "$pbkdf2-sha256$i=1,l=-1$$" 1 (-1) [] []).
    + vm_compute. reflexivity.
    + left. reflexivity.
Defined.

(** X5. [Verify] never looks at the text in front of the first [$]: putting
    any text without a [$] there changes nothing. *)
Theorem Verify_ignores_leading_field (password : list byte) (prefix rest : string) :
  absent "$" prefix = true ->
  pbkdf.Verify password (prefix ++ String "$" rest)%string =
  pbkdf.Verify password (String "$" rest).
Proof.
  intros Hp. rewrite !Verify_parse. unfold pbkdf.parse.
  rewrite (Split_app "$" prefix rest Hp).
  change (String "$" rest) with (String.append EmptyString (String "$" rest)).
  rewrite (Split_app "$" EmptyString rest eq_refl).
  destruct (strings.Split rest (String "$" EmptyString)) as [|f1 [|f2 [|f3 [|f4 [|f5 fs]]]]];
    reflexivity.
Qed.

Lemma Verify_ignores_leading_field_witness :
  pbkdf.Verify examplePassword
    ("v1 "
     ++ String "$" "pbkdf2-sha256$i=1,l=32$AwoRGB8mLTQ7QklQV15lbA$cQdzqrcwUax9FtrE8Oqh8LY5+kZHyCzi/t39YJAAAlE")%string =
  pbkdf.Verify examplePassword exampleHash.
Proof.
  apply (Verify_ignores_leading_field examplePassword "v1 "). reflexivity.
Defined.

(** X6. An iteration count of 1 or less, a negative one included, is not
    rejected unless it is zero: the encoded hash that names it parses, and
    [Verify] answers as it does for a single iteration, whatever the
    password; so do any two parsed hashes that differ only in such
    iteration counts.  The iteration count zero is rejected. *)
Theorem Verify_few_iterations (password : list byte) (i keyLen : Z)
      (salt decodedHash : list byte) :
  let encoded (n : Z) :=
    pbkdf.format n keyLen (base64.EncodeToString salt) (base64.EncodeToString decodedHash) in
  is_int i = true -> is_int keyLen = true -> keyLen <> 0 -> i <= 1 ->
  (i <> 0 ->
   pbkdf.parse (encoded i) = Some (i, keyLen, salt, decodedHash) /\
   pbkdf.parse (encoded 1) = Some (1, keyLen, salt, decodedHash) /\
   pbkdf.Verify password (encoded i) = pbkdf.Verify password (encoded 1)) /\
  pbkdf.Verify password (encoded 0) =
    Ret false (Some (errors.New "invalid or corrupted hash")) /\
  (forall (s1 s2 : string) (i1 i2 : Z),
      pbkdf.parse s1 = Some (i1, keyLen, salt, decodedHash) ->
      pbkdf.parse s2 = Some (i2, keyLen, salt, decodedHash) ->
      i1 <= 1 -> i2 <= 1 ->
      pbkdf.Verify password s1 = pbkdf.Verify password s2).
Proof.
  cbv zeta. intros Hi Hl Hl0 Hle.
  assert (Hsame : forall (s1 s2 : string) (i1 i2 : Z),
             pbkdf.parse s1 = Some (i1, keyLen, salt, decodedHash) ->
             pbkdf.parse s2 = Some (i2, keyLen, salt, decodedHash) ->
             i1 <= 1 -> i2 <= 1 ->
             pbkdf.Verify password s1 = pbkdf.Verify password s2).
  { intros s1 s2 i1 i2 H1 H2 Hi1 Hi2.
    rewrite (Verify_parsed _ _ _ _ _ _ H1), (Verify_parsed _ _ _ _ _ _ H2).
    rewrite (Key_few_iterations _ _ i1) by exact Hi1.
    rewrite (Key_few_iterations _ _ i2) by exact Hi2. reflexivity. }
  split; [|split; [|exact Hsame]].
  - intros Hi0.
    pose proof (parse_format i keyLen salt decodedHash Hi Hl Hi0 Hl0) as Hp.
    pose proof (parse_format 1 keyLen salt decodedHash eq_refl Hl ltac:(discriminate) Hl0)
      as Hp1.
    split; [exact Hp|]. split; [exact Hp1|].
    apply (Hsame _ _ i 1 Hp Hp1); [exact Hle|lia].
  - apply Verify_invalid. unfold pbkdf.parse.
    rewrite format_Split. rewrite String.eqb_refl.
    rewrite (parseParams_field2 0 keyLen 0 0 eq_refl Hl). reflexivity.
Qed.

Lemma Verify_few_iterations_witness :
  pbkdf.Verify examplePassword
    (pbkdf.format (-7) 32 (base64.EncodeToString exampleSalt)
       (base64.EncodeToString exampleKey)) =
  pbkdf.Verify examplePassword
    (pbkdf.format 1 32 (base64.EncodeToString exampleSalt)
       (base64.EncodeToString exampleKey)).
Proof.
  apply (proj1 (Verify_few_iterations examplePassword (-7) 32 exampleSalt exampleKey
                  eq_refl eq_refl ltac:(discriminate) ltac:(discriminate))).
  discriminate.
Defined.

(** X7. A stored key whose length is not the key length named in field 2
    never verifies, whatever the password: [Verify] answers [false] or
    panics, never [true]. *)
Theorem Verify_wrong_length (password : list byte) (encodedHash : string)
      (iterations keyLen : Z) (salt decodedHash : list byte) :
  pbkdf.parse encodedHash = Some (iterations, keyLen, salt, decodedHash) ->
  len decodedHash <> keyLen ->
  pbkdf.Verify password encodedHash = Ret false None \/
  pbkdf.Verify password encodedHash = Panic.
Proof.
  intros Hparse Hlen. rewrite (Verify_parsed _ _ _ _ _ _ Hparse).
  destruct (pbkdf2.Key password salt iterations keyLen (Some sha256.New)) as [dk|] eqn:HK;
    [|right; reflexivity].
  left. pose proof (Key_sha256_length _ _ _ _ _ HK) as Hdk.
  destruct (subtle.ConstantTimeCompare dk decodedHash =? 1) eqn:E; [|reflexivity].
  apply ConstantTimeCompare_eqb in E. subst dk. contradiction.
Qed.

Lemma Verify_wrong_length_witness :
  pbkdf.Verify examplePassword "$pbkdf2-sha256$i=1,l=32$AwoRGB8mLTQ7QklQV15lbA$" = Ret false None \/
  pbkdf.Verify examplePassword "$pbkdf2-sha256$i=1,l=32$AwoRGB8mLTQ7QklQV15lbA$" = Panic.
Proof.
  apply (Verify_wrong_length examplePassword _ 1 32 exampleSalt []).
  - vm_compute. reflexivity.
  - discriminate.
Defined.

(** ** Field 2: order and repetition of entries *)

Lemma Split_five (f1 f2 f3 f4 : string) :
  absent "$" f1 = true -> absent "$" f2 = true ->
  absent "$" f3 = true -> absent "$" f4 = true ->
  strings.Split (String "$" (f1 ++ String "$" (f2 ++ String "$" (f3 ++ String "$" f4))))%string
    "$" = [EmptyString; f1; f2; f3; f4].
Proof.
  intros H1 H2 H3 H4.
  change (String "$" (f1 ++ String "$" (f2 ++ String "$" (f3 ++ String "$" f4))))%string
    with (EmptyString ++ String "$" (f1 ++ String "$" (f2 ++ String "$" (f3 ++ String "$" f4))))%string.
  rewrite Split_app by reflexivity.
  rewrite Split_app by exact H1. rewrite Split_app by exact H2.
  rewrite Split_app by exact H3. rewrite Split_absent by exact H4. reflexivity.
Qed.

Lemma entry_pair (k : ascii) (v : string) :
  Ascii.eqb k "=" = false -> absent "=" v = true ->
  strings.Split (String k (String "=" v)) "=" = [String k EmptyString; v].
Proof.
  intros Hk Hv. apply Split_pair. split; [reflexivity|]. split; [|exact Hv].
  unfold absent. cbn [allChars]. rewrite Hk. reflexivity.
Qed.

Lemma parseParams_i_entry (v : string) (es : list string) (a b : Z) :
  absent "=" v = true ->
  pbkdf.parseParams (("i=" ++ v)%string :: es) a b =
  match strconv.Atoi v with
  | Some n => pbkdf.parseParams es n b
  | None => None
  end.
Proof.
  intros Hv. rewrite parseParams_cons. cbn [String.append].
  rewrite (entry_pair "i" v eq_refl Hv). reflexivity.
Qed.

Lemma parseParams_l_entry (v : string) (es : list string) (a b : Z) :
  absent "=" v = true ->
  pbkdf.parseParams (("l=" ++ v)%string :: es) a b =
  match strconv.Atoi v with
  | Some n => pbkdf.parseParams es a n
  | None => None
  end.
Proof.
  intros Hv. rewrite parseParams_cons. cbn [String.append].
  rewrite (entry_pair "l" v eq_refl Hv). reflexivity.
Qed.

(** X8. The order of the [i] and [l] entries in field 2 does not matter to
    [Verify]: [l=<vl>,i=<vi>] is read as [i=<vi>,l=<vl>] is, for any two
    values (numbers or not) and any salt and key fields. *)
Theorem Verify_field2_order (password : list byte) (vi vl b64Salt b64Hash : string) :
  absent "$" vi && absent "," vi && absent "=" vi = true ->
  absent "$" vl && absent "," vl && absent "=" vl = true ->
  absent "$" b64Salt = true -> absent "$" b64Hash = true ->
  pbkdf.Verify password
    ("$pbkdf2-sha256$" ++ ("l=" ++ vl ++ ",i=" ++ vi) ++ "$" ++ b64Salt ++ "$" ++ b64Hash)%string =
  pbkdf.Verify password
    ("$pbkdf2-sha256$" ++ ("i=" ++ vi ++ ",l=" ++ vl) ++ "$" ++ b64Salt ++ "$" ++ b64Hash)%string.
Proof.
  intros Hvi Hvl Hs Hh.
  apply andb_true_iff in Hvi as [Hvi Hvi3]. apply andb_true_iff in Hvi as [Hvi1 Hvi2].
  apply andb_true_iff in Hvl as [Hvl Hvl3]. apply andb_true_iff in Hvl as [Hvl1 Hvl2].
  rewrite !Verify_parse. unfold pbkdf.parse.
  change ("$pbkdf2-sha256$" ++ ("l=" ++ vl ++ ",i=" ++ vi) ++ "$" ++ b64Salt ++ "$" ++ b64Hash)%string
    with (String "$" ("pbkdf2-sha256" ++ String "$" (("l=" ++ vl ++ ",i=" ++ vi)
            ++ String "$" (b64Salt ++ String "$" b64Hash))))%string.
  change ("$pbkdf2-sha256$" ++ ("i=" ++ vi ++ ",l=" ++ vl) ++ "$" ++ b64Salt ++ "$" ++ b64Hash)%string
    with (String "$" ("pbkdf2-sha256" ++ String "$" (("i=" ++ vi ++ ",l=" ++ vl)
            ++ String "$" (b64Salt ++ String "$" b64Hash))))%string.
  rewrite !Split_five; try assumption; try reflexivity;
    try (rewrite !absent_app; cbn [String.append];
         unfold absent in *; cbn [allChars] in *;
         rewrite ?Hvi1, ?Hvl1; reflexivity).
  rewrite String.eqb_refl.
  assert (Hli : strings.Split ("l=" ++ vl ++ ",i=" ++ vi)%string "," =
                [("l=" ++ vl)%string; ("i=" ++ vi)%string]).
  { replace ("l=" ++ vl ++ ",i=" ++ vi)%string
      with (("l=" ++ vl) ++ String "," ("i=" ++ vi))%string
      by (rewrite append_assoc; reflexivity).
    rewrite Split_app by (rewrite absent_app, Hvl2; reflexivity).
    rewrite Split_absent by (rewrite absent_app, Hvi2; reflexivity). reflexivity. }
  assert (Hil : strings.Split ("i=" ++ vi ++ ",l=" ++ vl)%string "," =
                [("i=" ++ vi)%string; ("l=" ++ vl)%string]).
  { replace ("i=" ++ vi ++ ",l=" ++ vl)%string
      with (("i=" ++ vi) ++ String "," ("l=" ++ vl))%string
      by (rewrite append_assoc; reflexivity).
    rewrite Split_app by (rewrite absent_app, Hvi2; reflexivity).
    rewrite Split_absent by (rewrite absent_app, Hvl2; reflexivity). reflexivity. }
  rewrite Hli, Hil.
  rewrite (parseParams_l_entry vl _ 0 0 Hvl3), (parseParams_i_entry vi _ 0 0 Hvi3).
  destruct (strconv.Atoi vi) as [ni|] eqn:Ei, (strconv.Atoi vl) as [nl|] eqn:El;
    rewrite ?(parseParams_l_entry vl _ _ _ Hvl3), ?(parseParams_i_entry vi _ _ _ Hvi3),
      ?Ei, ?El; reflexivity.
Qed.

Lemma Verify_field2_order_witness :
  pbkdf.Verify examplePassword
    "$pbkdf2-sha256$l=32,i=1$AwoRGB8mLTQ7QklQV15lbA$cQdzqrcwUax9FtrE8Oqh8LY5+kZHyCzi/t39YJAAAlE" =
  pbkdf.Verify examplePassword exampleHash.
Proof.
  apply (Verify_field2_order examplePassword "1" "32" "AwoRGB8mLTQ7QklQV15lbA"
           "cQdzqrcwUax9FtrE8Oqh8LY5+kZHyCzi/t39YJAAAlE"); reflexivity.
Defined.

(** X9. When field 2 repeats a key, the last entry wins: an [i=<v>] (or
    [l=<v>]) entry appended to a list the loop accepts replaces the
    iteration count (or the key length) by the number [v] denotes, and
    makes the loop fail when [v] is no number. *)
Theorem field2_last_entry_wins (es : list string) (a b i l : Z) (v : string) :
  pbkdf.parseParams es a b = Some (i, l) ->
  absent "=" v = true ->
  pbkdf.parseParams (es ++ [("i=" ++ v)%string]) a b =
    match strconv.Atoi v with
    | Some n => Some (n, l)
    | None => None
    end /\
  pbkdf.parseParams (es ++ [("l=" ++ v)%string]) a b =
    match strconv.Atoi v with
    | Some n => Some (i, n)
    | None => None
    end.
Proof.
  intros H Hv. rewrite !parseParams_app, H.
  rewrite (parseParams_i_entry v [] i l Hv), (parseParams_l_entry v [] i l Hv).
  destruct (strconv.Atoi v); split; reflexivity.
Qed.

Lemma field2_last_entry_wins_witness :
  pbkdf.parseParams (["i=1"; "l=32"] ++ ["i=5"]) 0 0 = Some (5, 32).
Proof.
  apply (proj1 (field2_last_entry_wins ["i=1"; "l=32"] 0 0 1 32 "5" eq_refl eq_refl)).
Defined.

(** ** The characters of an encoded hash *)

Lemma isDigit_valid (c : ascii) :
  strconv.isDigit c = true -> base64.valid (base64.decodeMap c) = true.
Proof.
  destruct c as [[] [] [] [] [] [] [] []]; intros H; try discriminate H; reflexivity.
Qed.

(** X10. An encoded hash returned by [Params.Hash] is made of letters,
    digits, [+], [/], [$], [,], [=] and [-] only: no blank, no control
    character, no byte outside ASCII. *)
Theorem Hash_charset (p : pbkdf.Params) (password : list byte) (r r' : rand.Reader)
      (s : string) :
  pbkdf.Params_Hash p password r = (Ret s None, r') ->
  allChars (fun c => base64.valid (base64.decodeMap c) || Ascii.eqb c "$" || Ascii.eqb c ","
                     || Ascii.eqb c "=" || Ascii.eqb c "-") s = true.
Proof.
  intros H. apply Params_Hash_returns in H as (salt & dk & _ & _ & ->).
  assert (Hnum : forall n,
             allChars (fun c => base64.valid (base64.decodeMap c) || Ascii.eqb c "$"
                                || Ascii.eqb c "," || Ascii.eqb c "=" || Ascii.eqb c "-")
               (fmt.fmt_d n) = true).
  { intros n. eapply allChars_impl; [|apply fmt_d_chars].
    intros c Hc. apply orb_true_iff in Hc as [Hc|Hc].
    - rewrite (isDigit_valid c Hc). reflexivity.
    - rewrite Hc. rewrite !orb_true_r. reflexivity. }
  assert (Hb64 : forall bs,
             allChars (fun c => base64.valid (base64.decodeMap c) || Ascii.eqb c "$"
                                || Ascii.eqb c "," || Ascii.eqb c "=" || Ascii.eqb c "-")
               (base64.EncodeToString bs) = true).
  { intros bs. eapply allChars_impl; [|apply EncodeToString_inAlphabet].
    intros c Hc. rewrite Hc. reflexivity. }
  unfold pbkdf.format. rewrite !allChars_app, !Hnum, !Hb64. reflexivity.
Qed.

Lemma Hash_charset_witness :
  allChars (fun c => base64.valid (base64.decodeMap c) || Ascii.eqb c "$" || Ascii.eqb c ","
                     || Ascii.eqb c "=" || Ascii.eqb c "-") exampleHash = true.
Proof.
  apply (Hash_charset exampleParams examplePassword workingReader
           (snd (pbkdf.Params_Hash exampleParams examplePassword workingReader))).
  vm_compute. reflexivity.
Defined.

(** ** Salts of successive calls *)

(** X11. The salt in an encoded hash is the stretch of bytes the random
    source delivered for it, and the next call draws the next stretch: two
    successive calls of [Params.Hash] return different strings whenever
    those two stretches differ, whatever the passwords. *)
Theorem Hash_fresh_salt (p : pbkdf.Params) (password1 password2 : list byte)
      (r r1 r2 : rand.Reader) (s1 s2 : string) :
  pbkdf.Params_Hash p password1 r = (Ret s1 None, r1) ->
  pbkdf.Params_Hash p password2 r1 = (Ret s2 None, r2) ->
  let n := Z.to_nat (pbkdf.SaltLen (pbkdf.applyDefaults p)) in
  base64.DecodeString (nth 3 (strings.Split s1 "$") EmptyString) =
    Some (map (rand.entropy r) (seq (rand.consumed r) n)) /\
  base64.DecodeString (nth 3 (strings.Split s2 "$") EmptyString) =
    Some (map (rand.entropy r) (seq (rand.consumed r + n) n)) /\
  (map (rand.entropy r) (seq (rand.consumed r) n) <>
   map (rand.entropy r) (seq (rand.consumed r + n) n) -> s1 <> s2).
Proof.
  intros H1 H2. cbv zeta.
  apply Params_Hash_returns in H1 as (salt1 & dk1 & Hs1 & _ & ->).
  apply Params_Hash_returns in H2 as (salt2 & dk2 & Hs2 & _ & ->).
  apply GenerateSalt_returns in Hs1 as (_ & _ & -> & ->).
  apply GenerateSalt_returns in Hs2 as (_ & _ & -> & _). cbn [rand.entropy rand.consumed].
  rewrite !format_Split. cbn [nth]. rewrite !DecodeString_EncodeToString.
  split; [reflexivity|]. split; [reflexivity|].
  intros Hne Heq. apply Hne.
  apply (f_equal (fun s => base64.DecodeString (nth 3 (strings.Split s "$") EmptyString)))
    in Heq.
  rewrite !format_Split in Heq. cbn [nth] in Heq.
  rewrite !DecodeString_EncodeToString in Heq. injection Heq as Heq. exact Heq.
Qed.

Lemma Hash_fresh_salt_witness :
  exampleHash <>
  "$pbkdf2-sha256$i=1,l=32$c3qBiI+WnaSrsrnAx87V3A$rwGGHFnnILN5ecPpMo6wYVZQk484HIq7dl1D0m3OSws".
Proof.
  refine (proj2 (proj2 (Hash_fresh_salt exampleParams examplePassword examplePassword
                          workingReader
                          (snd (pbkdf.Params_Hash exampleParams examplePassword workingReader))
                          (snd (pbkdf.Params_Hash exampleParams examplePassword
                                  (snd (pbkdf.Params_Hash exampleParams examplePassword
                                          workingReader))))
                          exampleHash _ _ _)) _).
  - vm_compute. reflexivity.
  - vm_compute. reflexivity.
  - vm_compute. discriminate.
Defined.

(** ** Shortening the key *)

(** The first [k] bytes of the block stream do not depend on how many
    blocks are computed, once there are enough of them. *)
Lemma blocks_prefix (f : nat -> list byte) (n' n k : nat) :
  (forall b, List.length (f b) = 32%nat) ->
  (n' <= n)%nat -> (k <= n' * 32)%nat ->
  firstn k (flat_map f (seq 1 n')) = firstn k (flat_map f (seq 1 n)).
Proof.
  intros Hf Hn Hk.
  replace n with (n' + (n - n'))%nat by lia.
  rewrite seq_app, flat_map_app, firstn_app.
  rewrite (flat_map_length_const _ _ f 32 (seq 1 n') Hf), length_seq.
  replace (k - n' * 32)%nat with 0%nat by lia.
  cbn [firstn]. rewrite app_nil_r. reflexivity.
Qed.

(** A shorter key is the beginning of a longer one. *)
Lemma Key_sha256_prefix (password salt dk : list byte) (iter keyLen keyLen' : Z) :
  0 <= keyLen' <= keyLen -> keyLen <= MaxInt - 31 ->
  pbkdf2.Key password salt iter keyLen (Some sha256.New) = Some dk ->
  pbkdf2.Key password salt iter keyLen' (Some sha256.New) =
  Some (firstn (Z.to_nat keyLen') dk).
Proof.
  intros Hk Hmax HK.
  assert (Hfit : keyLen <= maxAlloc).
  { destruct (Z.le_gt_cases keyLen maxAlloc) as [Hle|Hgt]; [exact Hle|].
    rewrite Key_sha256_oversize in HK by lia. discriminate. }
  rewrite Key_sha256 in HK by lia. injection HK as <-.
  rewrite Key_sha256 by lia. f_equal.
  rewrite firstn_firstn. replace (Nat.min (Z.to_nat keyLen') (Z.to_nat keyLen))
    with (Z.to_nat keyLen') by lia.
  apply blocks_prefix.
  - intros b. apply T_length. intros m. apply Sum256_length.
  - apply Z2Nat.inj_le; [apply Z.div_pos; lia|apply Z.div_pos; lia|].
    apply Z.div_le_mono; lia.
  - pose proof (Z.div_mod (keyLen' + 31) 32 ltac:(lia)) as Hdm.
    pose proof (Z.mod_pos_bound (keyLen' + 31) 32 ltac:(lia)) as Hm.
    assert (H0 : 0 <= (keyLen' + 31) / 32) by (apply Z.div_pos; lia).
    lia.
Qed.

(** X12. Shortening the key keeps a hash valid: if an encoded hash verifies
    for a password, then a hash with the same iteration count and salt, a
    smaller key length [l'] and the first [l'] bytes of the stored key
    verifies for that password too. *)
Theorem Verify_truncated_key (password : list byte) (s s' : string)
      (iterations keyLen keyLen' : Z) (salt decodedHash : list byte) :
  pbkdf.parse s = Some (iterations, keyLen, salt, decodedHash) ->
  pbkdf.parse s' =
    Some (iterations, keyLen', salt, firstn (Z.to_nat keyLen') decodedHash) ->
  0 < keyLen' <= keyLen -> keyLen <= MaxInt - 31 ->
  pbkdf.Verify password s = Ret true None ->
  pbkdf.Verify password s' = Ret true None.
Proof.
  intros Hs Hs' Hk Hmax Hv.
  rewrite (Verify_parsed _ _ _ _ _ _ Hs) in Hv.
  destruct (pbkdf2.Key password salt iterations keyLen (Some sha256.New)) as [dk|] eqn:HK;
    [|discriminate].
  injection Hv as Hv. apply ConstantTimeCompare_eqb in Hv. subst dk.
  rewrite (Verify_parsed _ _ _ _ _ _ Hs').
  assert (Hk' : 0 <= keyLen' <= keyLen) by lia.
  rewrite (Key_sha256_prefix _ _ _ _ _ keyLen' Hk' Hmax HK).
  destruct (ConstantTimeCompare_eqb (firstn (Z.to_nat keyLen') decodedHash)
              (firstn (Z.to_nat keyLen') decodedHash)) as [_ ->]; reflexivity.
Qed.

Lemma Verify_truncated_key_witness :
  pbkdf.Verify examplePassword "$pbkdf2-sha256$i=1,l=1$AwoRGB8mLTQ7QklQV15lbA$cQ" =
  Ret true None.
Proof.
  apply (Verify_truncated_key examplePassword exampleHash _ 1 32 1 exampleSalt exampleKey).
  - vm_compute. reflexivity.
  - vm_compute. reflexivity.
  - lia.
  - unfold MaxInt. simpl. lia.
  - vm_compute. reflexivity.
Defined.
